(** * Smart-Megazen: classification, aggregation and alerting engine

    A shallow embedding of the decision logic of the Smart-Megazen
    warehouse monitor:

    - [MegazenService.js]: [isNodeStale], [getNodeStatus],
      [getWarehouseStatus] and the alert-log projection performed inside
      [subscribeToAlerts];
    - [useLiveWarehouse.js] (mobile hook): the edge-triggered amber alert;
    - [AlertLogPanel.js]: [alertsToCsv].

    Numbers.  A JavaScript number is an IEEE-754 binary64 value, and so is a
    primitive [float] of Rocq: sensor values and thresholds are [float]s and
    every comparison, product, sum and quotient below is the binary64 one.
    Timestamps are integral milliseconds since the epoch; in the range met
    in practice binary64 arithmetic on them is exact, so they are modelled
    in [Z].

    Absent fields.  A property that is missing from an object reads as
    [undefined]; it is modelled by [None].  The remote store keeps no
    [null] values, so a field is either a value or missing.

    Clock.  [Date.now()] is read as one instant [now] per evaluation. *)

From Stdlib Require Import ZArith Floats Uint63 Ascii.
From stdpp Require Import base list strings gmap sorting.

#[local] Open Scope Z_scope.

(** ** Data model *)

(** [STALE_THRESHOLD_MS = 120_000] *)
Definition STALE_THRESHOLD_MS : Z := 120000.

(** The active threshold configuration.  A field that is absent behaves in
    every use below as the [nan] it converts to. *)
Record Thresholds : Type := mkThresholds {
  max_humidity : float;
  max_temperature : float;
  min_battery : float
}.

Definition DEFAULT_THRESHOLDS : Thresholds :=
  {| max_humidity := 60; max_temperature := 30; min_battery := 20 |}.

(** One node's latest reading, as stored under [readings/{nodeId}]. *)
Record Reading : Type := mkReading {
  hum : option float;
  temp : option float;
  battery : option float;
  timestamp : option Z
}.

(** ['Optimal' | 'At Risk' | 'Critical' | 'Offline'] *)
Inductive NodeStatus : Type := Optimal | AtRisk | Critical | Offline.

#[global] Instance NodeStatus_eq_dec : EqDecision NodeStatus.
Proof. solve_decision. Defined.

(** ** Operators of the host language on possibly-absent numbers *)

(** The literal [1.1], i.e. the binary64 value nearest to eleven tenths. *)
Definition overshoot : float := 0x1.199999999999ap+0%float.

(** [x > y] where [x] may be absent: [undefined] converts to [NaN], and a
    comparison with [NaN] is false. *)
Definition js_gt (x : option float) (y : float) : bool :=
  match x with
  | Some a => PrimFloat.ltb y a
  | None => false
  end.

(** [x ?? 0] *)
Definition or_zero (x : option float) : float := default 0%float x.

(** ** Staleness policy and unit classifier *)

(** [isNodeStale(lastSeenTimestamp)]: the test [!lastSeenTimestamp] holds
    for an absent timestamp and for the number zero. *)
Definition isNodeStale (now : Z) (lastSeenTimestamp : option Z) : bool :=
  match lastSeenTimestamp with
  | None => true
  | Some t => if t =? 0 then true else STALE_THRESHOLD_MS <? now - t
  end.

(** [getNodeStatus(node, thresholds)]; [node] is [None] when falsy.  The
    callers in the engine always pass the thresholds, so the default
    parameter value plays no part. *)
Definition getNodeStatus (now : Z) (node : option Reading) (thresholds : Thresholds)
  : NodeStatus :=
  match node with
  | None => Offline
  | Some n =>
    if isNodeStale now (timestamp n) then Offline
    else
      let humCritical := js_gt (hum n) (max_humidity thresholds * overshoot)%float in
      let tempCritical := js_gt (temp n) (max_temperature thresholds * overshoot)%float in
      if humCritical || tempCritical then Critical
      else
        let humRisk := js_gt (hum n) (max_humidity thresholds) in
        let tempRisk := js_gt (temp n) (max_temperature thresholds) in
        if humRisk || tempRisk then AtRisk
        else Optimal
  end.

(** ** Fleet aggregator *)

(** A plain object used as a map from node identifiers to readings: its own
    properties in enumeration order.  A value [None] is a [null] entry. *)
Abbreviation Readings := (list (string * option Reading)).

(** [Object.keys(o)] *)
Definition Object_keys {A : Type} (o : list (string * A)) : list string := o.*1.

(** [o[k]]: the value of the property named [k], if there is one. *)
Fixpoint js_get {A : Type} (o : list (string * A)) (k : string) : option A :=
  match o with
  | [] => None
  | (k', v) :: o' => if decide (k' = k) then Some v else js_get o' k
  end.

(** [readings[nodeId]], with [undefined] and [null] both read as absent. *)
Definition reading_of (readings : Readings) (nodeId : string) : option Reading :=
  mjoin (js_get readings nodeId).

(** ['Optimal' | 'At Risk' | 'Critical' | 'No Data'] *)
Inductive OverallStatus : Type := FleetOptimal | FleetAtRisk | FleetCritical | NoData.

#[global] Instance OverallStatus_eq_dec : EqDecision OverallStatus.
Proof. solve_decision. Defined.

(** The record stored in [enrichedNodes[nodeId]]: the fields spread from the
    reading, then [nodeId], [status], [isOnline] and [lastSeenAgo]. *)
Record EnrichedNode : Type := mkEnrichedNode {
  e_hum : option float;
  e_temp : option float;
  e_battery : option float;
  e_timestamp : option Z;
  e_nodeId : string;
  e_status : NodeStatus;
  e_isOnline : bool;
  e_lastSeenAgo : option Z
}.

(** The snapshot returned by [getWarehouseStatus]. *)
Record WarehouseStatus : Type := mkWarehouseStatus {
  overallStatus : OverallStatus;
  averageTemp : float;
  averageHum : float;
  totalNodes : Z;
  onlineNodes : Z;
  offlineNodes : Z;
  atRiskNodesCount : Z;
  criticalNodesCount : Z;
  lowBatteryNodes : list string;
  enrichedNodes : gmap string EnrichedNode
}.

(** The variables the loop of [getWarehouseStatus] updates. *)
Record LoopState : Type := mkLoopState {
  tempSum : float;
  humSum : float;
  onlineCount : Z;
  atRiskCount : Z;
  criticalCount : Z;
  lowBattery : list string;
  enriched : gmap string EnrichedNode
}.

Definition loop_init : LoopState :=
  {| tempSum := 0; humSum := 0; onlineCount := 0; atRiskCount := 0;
     criticalCount := 0; lowBattery := []; enriched := ∅ |}.

(** [status !== 'Offline'] *)
Definition is_online (s : NodeStatus) : bool := bool_decide (s ≠ Offline).

(** [node?.timestamp ? Math.floor((Date.now() - node.timestamp) / 1000) : null] *)
Definition lastSeenAgo_of (now : Z) (node : option Reading) : option Z :=
  match node ≫= timestamp with
  | Some t => if t =? 0 then None else Some ((now - t) / 1000)
  | None => None
  end.

(** [isOnline && node.battery != null && node.battery < thresholds.min_battery] *)
Definition low_battery (thresholds : Thresholds) (isOnline : bool)
    (node : option Reading) : bool :=
  isOnline &&
  match node ≫= battery with
  | Some b => PrimFloat.ltb b (min_battery thresholds)
  | None => false
  end.

(** The number [z] as a binary64 value (exact below [2^53]). *)
Definition float_of_Z (z : Z) : float := PrimFloat.of_uint63 (Uint63.of_Z z).

Section Aggregator.

(** The instant [Date.now()] returns during the evaluation. *)
Variable now : Z.

(** [x => parseFloat(x.toFixed(1))], rounding to one decimal place; a
    built-in of the host language. *)
Variable round1 : float → float.

(** One iteration of [for (const nodeId of nodeIds)]. *)
Definition loop_body (readings : Readings) (thresholds : Thresholds)
    (st : LoopState) (nodeId : string) : LoopState :=
  let node := reading_of readings nodeId in
  let status := getNodeStatus now node thresholds in
  let isOnline := is_online status in
  let entry :=
    {| e_hum := node ≫= hum; e_temp := node ≫= temp;
       e_battery := node ≫= battery; e_timestamp := node ≫= timestamp;
       e_nodeId := nodeId; e_status := status; e_isOnline := isOnline;
       e_lastSeenAgo := lastSeenAgo_of now node |} in
  {| tempSum := if isOnline then (tempSum st + or_zero (node ≫= temp))%float
                else tempSum st;
     humSum := if isOnline then (humSum st + or_zero (node ≫= hum))%float
               else humSum st;
     onlineCount := if isOnline then onlineCount st + 1 else onlineCount st;
     atRiskCount := if decide (status = AtRisk) then atRiskCount st + 1
                    else atRiskCount st;
     criticalCount := if decide (status = Critical) then criticalCount st + 1
                      else criticalCount st;
     lowBattery := if low_battery thresholds isOnline node
                   then lowBattery st ++ [nodeId] else lowBattery st;
     enriched := <[nodeId := entry]> (enriched st) |}.

Definition run_loop (readings : Readings) (thresholds : Thresholds)
    (nodeIds : list string) : LoopState :=
  foldl (loop_body readings thresholds) loop_init nodeIds.

(** The status chosen after the loop: Critical > At Risk > No Data > Optimal. *)
Definition overall_of (st : LoopState) : OverallStatus :=
  if 0 <? criticalCount st then FleetCritical
  else if 0 <? atRiskCount st then FleetAtRisk
  else if onlineCount st =? 0 then NoData
  else FleetOptimal.

(** [onlineCount > 0 ? parseFloat((sum / onlineCount).toFixed(1)) : 0] *)
Definition average (sum : float) (count : Z) : float :=
  if 0 <? count then round1 (sum / float_of_Z count)%float else 0%float.

(** [getWarehouseStatus(readings, thresholds)] *)
Definition getWarehouseStatus (readings : Readings) (thresholds : Thresholds)
  : WarehouseStatus :=
  let nodeIds := Object_keys readings in
  if decide (length nodeIds = 0%nat) then
    {| overallStatus := NoData; averageTemp := 0; averageHum := 0;
       totalNodes := 0; onlineNodes := 0; offlineNodes := 0;
       atRiskNodesCount := 0; criticalNodesCount := 0;
       lowBatteryNodes := []; enrichedNodes := ∅ |}
  else
    let st := run_loop readings thresholds nodeIds in
    {| overallStatus := overall_of st;
       averageTemp := average (tempSum st) (onlineCount st);
       averageHum := average (humSum st) (onlineCount st);
       totalNodes := Z.of_nat (length nodeIds);
       onlineNodes := onlineCount st;
       offlineNodes := Z.of_nat (length nodeIds) - onlineCount st;
       atRiskNodesCount := atRiskCount st;
       criticalNodesCount := criticalCount st;
       lowBatteryNodes := lowBattery st;
       enrichedNodes := enriched st |}.

End Aggregator.

(** An executable model of [x => parseFloat(x.toFixed(1))].  [toFixed(1)]
    prints the integer [n] for which [n / 10] is nearest to the magnitude of
    [x] (the larger one on a tie) with one digit after the point, and
    [parseFloat] reads that text back to the nearest binary64 value.  From
    [2^49] on the spacing of binary64 values is at least [1/8], so the
    value read back is [x] itself; below, [n] is exactly representable and
    the correctly rounded quotient [n / 10] is the value read. *)
Definition toFixed1 (x : float) : float :=
  match Prim2SF x with
  | S754_finite s m e =>
    if PrimFloat.leb 0x1p49%float (PrimFloat.abs x) then x
    else
      let n := if 0 <=? e then 10 * Z.pos m * 2 ^ e
               else (20 * Z.pos m + 2 ^ (- e)) / 2 ^ (1 - e) in
      let r := (float_of_Z n / 10)%float in
      if s then (- r)%float else r
  | S754_zero _ => 0%float
  | _ => x
  end.

(** ** Transition-triggered alarm (mobile hook [useLiveWarehouse]) *)

(** The hook state the amber alert lives in: [warehouseStatus] (a state
    variable, initially [null]), [amberAlertActive] (a state variable,
    initially [false]) and [prevOverall] (a ref, initially [null]). *)
Record AlarmState : Type := mkAlarmState {
  warehouseStatus : option WarehouseStatus;
  amberAlertActive : bool;
  prevOverall : option OverallStatus
}.

Definition alarm_init : AlarmState :=
  {| warehouseStatus := None; amberAlertActive := false; prevOverall := None |}.

(** The test guarding [setAmberAlertActive(true)] and the haptic impact. *)
Definition enters_critical (prev : option OverallStatus) (snapshot : WarehouseStatus)
  : bool :=
  bool_decide (overallStatus snapshot = FleetCritical) &&
  bool_decide (prev ≠ Some FleetCritical).

(** The status-aggregation effect, applied to the snapshot it has just
    computed. *)
Definition aggregation_effect (st : AlarmState) (snapshot : WarehouseStatus)
  : AlarmState :=
  {| warehouseStatus := Some snapshot;
     amberAlertActive :=
       if enters_critical (prevOverall st) snapshot then true
       else amberAlertActive st;
     prevOverall := Some (overallStatus snapshot) |}.

(** [dismissAmberAlert()] *)
Definition dismissAmberAlert (st : AlarmState) : AlarmState :=
  {| warehouseStatus := warehouseStatus st;
     amberAlertActive := false;
     prevOverall := prevOverall st |}.

(** What can happen to the hook: a recomputation or an acknowledgement. *)
Inductive HookEvent : Type :=
  | Recomputed (snapshot : WarehouseStatus)
  | Dismissed.

Definition hook_step (st : AlarmState) (ev : HookEvent) : AlarmState :=
  match ev with
  | Recomputed snapshot => aggregation_effect st snapshot
  | Dismissed => dismissAmberAlert st
  end.

Definition hook_run (st : AlarmState) (evs : list HookEvent) : AlarmState :=
  foldl hook_step st evs.

(** For each snapshot of a run, whether the effect activated the alarm. *)
Fixpoint activations (st : AlarmState) (snapshots : list WarehouseStatus)
  : list bool :=
  match snapshots with
  | [] => []
  | s :: rest =>
    enters_critical (prevOverall st) s :: activations (aggregation_effect st s) rest
  end.

Definition activation_count (snapshots : list WarehouseStatus) : nat :=
  length (filter (λ b, b = true) (activations alarm_init snapshots)).

(** The overall status of the snapshot before position [i], if any. *)
Definition predecessor_status (snapshots : list WarehouseStatus) (i : nat)
  : option OverallStatus :=
  match i with
  | O => None
  | S j => overallStatus <$> snapshots !! j
  end.

(** A snapshot with the given overall status and nothing else of note. *)
Definition snapshot_with (o : OverallStatus) : WarehouseStatus :=
  {| overallStatus := o; averageTemp := 0; averageHum := 0; totalNodes := 0;
     onlineNodes := 0; offlineNodes := 0; atRiskNodesCount := 0;
     criticalNodesCount := 0; lowBatteryNodes := []; enrichedNodes := ∅ |}.

(** ** Alert log projection ([subscribeToAlerts]) *)

(** A record of the append-only log under [logs/alerts/{autoId}], with the
    fields of the log's schema; the key it is stored under is not among
    them. *)
Record RawAlert : Type := mkRawAlert {
  raw_nodeId : option string;
  raw_type : option string;
  raw_value : option float;
  raw_threshold : option float;
  raw_message : option string;
  raw_timestamp : option Z
}.

(** A projected alert: [{ id, ...alert }]. *)
Record Alert : Type := mkAlert {
  alert_id : string;
  alert_nodeId : option string;
  alert_type : option string;
  alert_value : option float;
  alert_threshold : option float;
  alert_message : option string;
  alert_timestamp : option Z
}.

(** [([id, alert]) => ({ id, ...alert })] *)
Definition alert_of_entry (entry : string * RawAlert) : Alert :=
  let '(id, alert) := entry in
  {| alert_id := id;
     alert_nodeId := raw_nodeId alert;
     alert_type := raw_type alert;
     alert_value := raw_value alert;
     alert_threshold := raw_threshold alert;
     alert_message := raw_message alert;
     alert_timestamp := raw_timestamp alert |}.

(** [a.timestamp ?? 0] *)
Definition timestamp_or_zero (a : Alert) : Z := default 0 (alert_timestamp a).

(** The comparator [(a, b) => (b.timestamp ?? 0) - (a.timestamp ?? 0)]. *)
Definition newest_first (a b : Alert) : Z :=
  timestamp_or_zero b - timestamp_or_zero a.

(** [Array.prototype.sort(compareFn)]: a stable sort; [a] stays ahead of a
    later [b] unless [compareFn(a, b) > 0]. *)
Fixpoint sort_insert {A : Type} (compareFn : A → A → Z) (x : A) (l : list A)
  : list A :=
  match l with
  | [] => [x]
  | y :: l' =>
    if compareFn x y <=? 0 then x :: y :: l'
    else y :: sort_insert compareFn x l'
  end.

Definition Array_sort {A : Type} (compareFn : A → A → Z) (l : list A) : list A :=
  foldr (sort_insert compareFn) [] l.

(** The projection: [Object.entries(raw).map(..).sort(..)]. *)
Definition projectAlerts (raw : list (string * RawAlert)) : list Alert :=
  Array_sort newest_first (alert_of_entry <$> raw).

(** The handler [subscribeToAlerts] registers, as a function from the value
    of the store's snapshot ([None] for [null]) to the list it hands to
    the subscriber's callback. *)
Definition subscribeToAlerts_handler (val : option (list (string * RawAlert)))
  : list Alert :=
  let raw := default [] val in
  projectAlerts raw.

(** ** CSV export ([alertsToCsv] of the desktop alert log panel) *)

Definition dquote : ascii := ascii_of_nat 34.
Definition comma : ascii := ascii_of_nat 44.
Definition newline : ascii := ascii_of_nat 10.

Definition str (c : ascii) : string := String c EmptyString.

(** The replacement of every double-quote character by two of them, as
    done by [replace] with a global pattern. *)
Fixpoint double_quotes (s : string) : string :=
  match s with
  | EmptyString => EmptyString
  | String c rest =>
    if decide (c = dquote) then String dquote (String dquote (double_quotes rest))
    else String c (double_quotes rest)
  end.

(** The template literal that puts the escaped message between two
    double-quote characters. *)
Definition csv_quote (message : string) : string :=
  String dquote (double_quotes message +:+ str dquote).

(** ['ID,Node,Type,Value,Threshold,Timestamp,Message\n'] *)
Definition csv_header : string :=
  "ID,Node,Type,Value,Threshold,Timestamp,Message"%string +:+ str newline.

(** The largest magnitude of a time value a [Date] can hold. *)
Definition MAX_TIME_VALUE : Z := 8640000000000000.

Section CsvExport.

(** The text of a number as [Array.prototype.join] writes it. *)
Variable Number_toString : float → string.

(** The text [Date.prototype.toISOString] writes for a valid time value. *)
Variable iso_format : Z → string.

(** [new Date(t).toISOString()], which throws a [RangeError] when [t] is
    not a valid time value. *)
Definition toISOString (t : Z) : option string :=
  if bool_decide (Z.abs t ≤ MAX_TIME_VALUE) then Some (iso_format t) else None.

(** [a.timestamp ? new Date(a.timestamp).toISOString() : ''] *)
Definition csv_timestamp (timestamp : option Z) : option string :=
  match timestamp with
  | Some t => if t =? 0 then Some EmptyString else toISOString t
  | None => Some EmptyString
  end.

(** The cells of one row before they are joined; the first five are
    written as they are, a missing one as the empty text. *)
Definition csv_cells (a : Alert) : option (list string) :=
  ts ← csv_timestamp (alert_timestamp a);
  Some [ alert_id a;
         default EmptyString (alert_nodeId a);
         default EmptyString (alert_type a);
         from_option Number_toString EmptyString (alert_value a);
         from_option Number_toString EmptyString (alert_threshold a);
         ts;
         csv_quote (default EmptyString (alert_message a)) ].

(** One element of [rows]: the cells joined by [','] . *)
Definition csv_row (a : Alert) : option string :=
  String.concat (str comma) <$> csv_cells a.

(** [alertsToCsv(alerts)]; [None] when a time value is out of range. *)
Definition alertsToCsv (alerts : list Alert) : option string :=
  rows ← mapM csv_row alerts;
  Some (csv_header +:+ String.concat (str newline) rows).

End CsvExport.

(** ** Reference definitions, written from the specification *)

(** Staleness policy of the specification: stale when the last-seen time is
    absent, or when more than [120000] ms lie between it and now. *)
Definition isStale_reference (lastSeenMs : option Z) (nowMs : Z) : bool :=
  match lastSeenMs with
  | None => true
  | Some t => bool_decide (nowMs - t > 120000)
  end.

(** Tiered classification of the specification: Offline first, then
    Critical, then At Risk, then Optimal. *)
Definition classify_reference (reading : option Reading) (thresholds : Thresholds)
    (now : Z) : NodeStatus :=
  match reading with
  | None => Offline
  | Some r =>
    if isStale_reference (timestamp r) now then Offline
    else if js_gt (hum r) (max_humidity thresholds * overshoot)%float
            || js_gt (temp r) (max_temperature thresholds * overshoot)%float
    then Critical
    else if js_gt (hum r) (max_humidity thresholds)
            || js_gt (temp r) (max_temperature thresholds)
    then AtRisk
    else Optimal
  end.

(** ** Units of a fleet, as the loop sees them *)

(** The status the loop computes for the unit named [nodeId]. *)
Definition unit_status (now : Z) (readings : Readings) (thresholds : Thresholds)
    (nodeId : string) : NodeStatus :=
  getNodeStatus now (reading_of readings nodeId) thresholds.

(** The statuses of all units, in enumeration order. *)
Definition unit_statuses (now : Z) (readings : Readings) (thresholds : Thresholds)
  : list NodeStatus :=
  unit_status now readings thresholds <$> Object_keys readings.

(** The identifiers in [nodeIds] of the units that are not Offline. *)
Definition online_among (now : Z) (readings : Readings) (thresholds : Thresholds)
    (nodeIds : list string) : list string :=
  filter (λ nodeId, unit_status now readings thresholds nodeId ≠ Offline) nodeIds.

(** The online units of the fleet. *)
Definition online_units (now : Z) (readings : Readings) (thresholds : Thresholds)
  : list string :=
  online_among now readings thresholds (Object_keys readings).

(** A sum of one optional field over the listed units, accumulated from
    [start] in list order with a missing value counted as zero. *)
Definition field_sum (field : Reading → option float) (readings : Readings)
    (start : float) (nodeIds : list string) : float :=
  foldl (λ acc nodeId, (acc + or_zero (reading_of readings nodeId ≫= field))%float)
        start nodeIds.

(** ** Reading a row back, written from the export contract *)

(** Where a reader of comma-separated text stands within a cell: in plain
    text, inside a quoted cell, or just past a quote met inside one. *)
Inductive CellMode : Type := Plain | Quoted | QuoteSeen.

(** The cells of one row of comma-separated text: commas separate cells
    unless they stand inside a quoted cell, and inside a quoted cell two
    double-quote characters stand for one.  [cell] is the text of the
    current cell read so far. *)
Fixpoint csv_read_row (mode : CellMode) (cell : string) (s : string)
  : list string :=
  match s with
  | EmptyString => [cell]
  | String c rest =>
    match mode with
    | Quoted =>
      if decide (c = dquote) then csv_read_row QuoteSeen cell rest
      else csv_read_row Quoted (cell +:+ str c) rest
    | Plain | QuoteSeen =>
      if decide (c = comma) then cell :: csv_read_row Plain EmptyString rest
      else if decide (c = dquote) then
        csv_read_row Quoted
          (match mode with QuoteSeen => cell +:+ str dquote | _ => cell end) rest
      else csv_read_row Plain (cell +:+ str c) rest
    end
  end.

(** A text that can stand in an unquoted cell: no comma and no double
    quote in it. *)
Fixpoint plain_cell (s : string) : bool :=
  match s with
  | EmptyString => true
  | String c rest =>
    bool_decide (c ≠ comma) && bool_decide (c ≠ dquote) && plain_cell rest
  end.

(** The field values of an alert as texts, a missing one as the empty
    text: what a row is expected to hold, cell by cell. *)
Definition alert_texts (Number_toString : float → string) (timestamp_text : string)
    (a : Alert) : list string :=
  [ alert_id a;
    default EmptyString (alert_nodeId a);
    default EmptyString (alert_type a);
    from_option Number_toString EmptyString (alert_value a);
    from_option Number_toString EmptyString (alert_threshold a);
    timestamp_text;
    default EmptyString (alert_message a) ].

(** An alert raised for a node whose identifier contains a comma, and the
    alert whose cells it is mistaken for. *)
Definition dock_alert : Alert :=
  {| alert_id := "-Nq1"%string;
     alert_nodeId := Some "dock,3"%string;
     alert_type := Some "humidity"%string;
     alert_value := Some 71%float;
     alert_threshold := Some 60%float;
     alert_message := Some "High humidity"%string;
     alert_timestamp := Some 1709035200000 |}.

Definition shifted_alert : Alert :=
  {| alert_id := "-Nq1"%string;
     alert_nodeId := Some "dock"%string;
     alert_type := Some "3,humidity"%string;
     alert_value := Some 71%float;
     alert_threshold := Some 60%float;
     alert_message := Some "High humidity"%string;
     alert_timestamp := Some 1709035200000 |}.

(** ** A sample fleet *)

(** An instant of the wall clock (2024-02-27T12:00:00Z). *)
Definition sample_now : Z := 1709035200000.

(** Four units: one far too humid, one silent for 200 s, one slightly too
    warm with a weak battery, and one that reports only its timestamp. *)
Definition sample_readings : Readings :=
  [ ("n1"%string,
     Some (mkReading (Some 85%float) (Some 20%float) (Some 50%float)
             (Some sample_now)));
    ("n2"%string,
     Some (mkReading (Some 50%float) (Some 25%float) (Some 10%float)
             (Some (sample_now - 200000))));
    ("n3"%string,
     Some (mkReading (Some 55%float) (Some 31%float) (Some 15%float)
             (Some (sample_now - 1000))));
    ("n4"%string,
     Some (mkReading None None None (Some (sample_now - 5000)))) ].

(** ** The records and the consumers of a snapshot *)

(** The object literal assigned to [enrichedNodes[nodeId]] by the loop. *)
Definition enriched_entry (now : Z) (readings : Readings) (thresholds : Thresholds)
    (nodeId : string) : EnrichedNode :=
  let node := reading_of readings nodeId in
  let status := getNodeStatus now node thresholds in
  {| e_hum := node ≫= hum; e_temp := node ≫= temp;
     e_battery := node ≫= battery; e_timestamp := node ≫= timestamp;
     e_nodeId := nodeId; e_status := status; e_isOnline := is_online status;
     e_lastSeenAgo := lastSeenAgo_of now node |}.

(** The number of units of the fleet that have the given status. *)
Definition units_with (now : Z) (readings : Readings) (thresholds : Thresholds)
    (s : NodeStatus) : Z :=
  Z.of_nat (length (filter (λ nodeId, unit_status now readings thresholds nodeId = s)
                      (Object_keys readings))).

(** [warehouseStatus[key]] for the names under which a snapshot holds a
    counter; the snapshot's other properties (the overall status, the two
    averages, the low-battery list and the enriched records) are not
    counters, and under any further name it holds nothing. *)
Definition snapshot_counter (snapshot : WarehouseStatus) (key : string) : option Z :=
  if decide (key = "totalNodes"%string) then Some (totalNodes snapshot)
  else if decide (key = "onlineNodes"%string) then Some (onlineNodes snapshot)
  else if decide (key = "offlineNodes"%string) then Some (offlineNodes snapshot)
  else if decide (key = "atRiskNodesCount"%string) then Some (atRiskNodesCount snapshot)
  else if decide (key = "criticalNodesCount"%string) then Some (criticalNodesCount snapshot)
  else None.

(** The [key] of each entry of [SEGMENTS] in the health bar, in order:
    Optimal, At Risk, Critical, Offline. *)
Definition SEGMENTS : list string :=
  [ "optimalNodesCount"%string; "atRiskNodesCount"%string;
    "criticalNodesCount"%string; "offlineNodes"%string ].

(** [Math.max(warehouseStatus?.totalNodes ?? 0, 1)] of the health bar. *)
Definition healthBar_total (warehouseStatus : option WarehouseStatus) : Z :=
  Z.max (default 0 (totalNodes <$> warehouseStatus)) 1.

(** The [count] of each segment of the health bar:
    [warehouseStatus?.[s.key] ?? 0]. *)
Definition healthBar_counts (warehouseStatus : option WarehouseStatus) : list Z :=
  (λ key, default 0 (warehouseStatus ≫= λ s, snapshot_counter s key)) <$> SEGMENTS.

(** ** The subscription registry of [MegazenService] *)

Definition BASE_PATH : string := "artifacts/smart-megazen/public/data"%string.
Definition READINGS_PATH : string := BASE_PATH +:+ "/readings"%string.
Definition THRESHOLDS_PATH : string := BASE_PATH +:+ "/configs/thresholds"%string.
Definition ALERTS_PATH : string := BASE_PATH +:+ "/logs/alerts"%string.

(** A call the service makes to the database client: [onValue(ref, ..)],
    which hands back a [handler], and [off(ref, 'value', handler)]. *)
Inductive DbCall : Type :=
  | OnValue (path : string) (handler : nat)
  | Off (path : string) (handler : nat).

#[global] Instance DbCall_eq_dec : EqDecision DbCall.
Proof. solve_decision. Defined.

(** The closure [() => off(dbRef, 'value', handler)] a subscription
    returns: it holds the reference and the handler. *)
Record Unsubscribe : Type := mkUnsubscribe {
  u_path : string;
  u_handler : nat
}.

#[global] Instance Unsubscribe_eq_dec : EqDecision Unsubscribe.
Proof. solve_decision. Defined.

(** The call an [Unsubscribe] makes when it is invoked. *)
Definition off_call (u : Unsubscribe) : DbCall := Off (u_path u) (u_handler u).

(** A service instance and the database client it talks to:
    [_activeListeners] (a [Map], here its entries in insertion order), the
    calls made so far (oldest first), and the next handler the client will
    hand out, each call of [onValue] returning a new one. *)
Record ServiceState : Type := mkServiceState {
  activeListeners : list (string * Unsubscribe);
  db_calls : list DbCall;
  next_handler : nat
}.

(** [new MegazenService(app)] *)
Definition new_service : ServiceState :=
  {| activeListeners := []; db_calls := []; next_handler := 0 |}.

(** [Map.prototype.set]: the value of an existing key is replaced where it
    stands, a new key is added at the end. *)
Fixpoint Map_set {V : Type} (key : string) (v : V) (m : list (string * V))
  : list (string * V) :=
  match m with
  | [] => [(key, v)]
  | (k, v') :: m' =>
    if decide (k = key) then (key, v) :: m' else (k, v') :: Map_set key v m'
  end.

(** [Map.prototype.delete] *)
Definition Map_delete {V : Type} (key : string) (m : list (string * V))
  : list (string * V) :=
  filter (λ entry, entry.1 ≠ key) m.

(** The body shared by the four subscription methods: attach a listener at
    [path], build the [unsubscribe] closure, record it under [key], return
    it. *)
Definition subscribe (key path : string) (st : ServiceState)
  : Unsubscribe * ServiceState :=
  let handler := next_handler st in
  let unsubscribe := {| u_path := path; u_handler := handler |} in
  (unsubscribe,
   {| activeListeners := Map_set key unsubscribe (activeListeners st);
      db_calls := db_calls st ++ [OnValue path handler];
      next_handler := S handler |}).

Definition subscribeToReadings : ServiceState → Unsubscribe * ServiceState :=
  subscribe "readings"%string READINGS_PATH.


Definition subscribeToThresholds : ServiceState → Unsubscribe * ServiceState :=
  subscribe "thresholds"%string THRESHOLDS_PATH.

Definition subscribeToAlerts : ServiceState → Unsubscribe * ServiceState :=
  subscribe "alerts"%string ALERTS_PATH.

(** Invoking an [unsubscribe] closure. *)
Definition call_unsubscribe (u : Unsubscribe) (st : ServiceState) : ServiceState :=
  {| activeListeners := activeListeners st;
     db_calls := db_calls st ++ [off_call u];
     next_handler := next_handler st |}.

(** One iteration of the loop of [unsubscribeAll]. *)
Definition unsubscribeAll_body (st : ServiceState) (entry : string * Unsubscribe)
  : ServiceState :=
  let st' := call_unsubscribe entry.2 st in
  {| activeListeners := Map_delete entry.1 (activeListeners st');
     db_calls := db_calls st';
     next_handler := next_handler st' |}.

(** [unsubscribeAll()]: the loop visits the entries the map holds when it
    starts, each being deleted as it is visited. *)
Definition unsubscribeAll (st : ServiceState) : ServiceState :=
  foldl unsubscribeAll_body st (activeListeners st).

(** Handlers are handed out in increasing order, so every handler met so
    far lies below the next one. *)
Definition handlers_known (st : ServiceState) : Prop :=
  Forall (λ c, match c with
               | OnValue _ h | Off _ h => (h < next_handler st)%nat
               end) (db_calls st)
  ∧ Forall (λ entry, (u_handler entry.2 < next_handler st)%nat) (activeListeners st).

(** ** The hook [useLiveWarehouse] as a whole *)

(** The thresholds object as the store holds it: any of its fields may be
    missing. *)
Record RawThresholds : Type := mkRawThresholds {
  raw_max_humidity : option float;
  raw_max_temperature : option float;
  raw_min_battery : option float
}.

(** The handler [subscribeToThresholds] registers, from the value of the
    store's snapshot to the object handed to the callback:
    [{ ...DEFAULT_THRESHOLDS, ...(snapshot.val() ?? DEFAULT_THRESHOLDS) }]. *)
Definition subscribeToThresholds_handler (val : option RawThresholds) : Thresholds :=
  match val with
  | None => DEFAULT_THRESHOLDS
  | Some data =>
    {| max_humidity :=
         default (max_humidity DEFAULT_THRESHOLDS) (raw_max_humidity data);
       max_temperature :=
         default (max_temperature DEFAULT_THRESHOLDS) (raw_max_temperature data);
       min_battery :=
         default (min_battery DEFAULT_THRESHOLDS) (raw_min_battery data) |}
  end.

(** The handler [subscribeToReadings] registers: [snapshot.val() ?? {}]. *)
Definition subscribeToReadings_handler (val : option Readings) : Readings :=
  default [] val.

(** The state of the hook: the three latest values, the time of the last
    readings update, the connection flag, and the snapshot with the alarm. *)
Record LiveState : Type := mkLiveState {
  live_readings : Readings;
  live_thresholds : Thresholds;
  live_alerts : list Alert;
  lastSync : option Z;
  isConnected : bool;
  live_alarm : AlarmState
}.

(** What reaches the hook: a value pushed on one of its three
    subscriptions, or the acknowledgement of the alert.  A value that leads
    to a recomputation carries the instant the clock shows then. *)
Inductive LiveEvent : Type :=
  | ReadingsValue (instant : Z) (val : option Readings)
  | ThresholdsValue (instant : Z) (val : option RawThresholds)
  | AlertsValue (val : option (list (string * RawAlert)))
  | DismissPressed.

Section LiveWarehouse.

Variable round1 : float → float.

(** The status-aggregation effect, run when [readings] or [thresholds]
    has changed. *)
Definition live_recompute (instant : Z) (st : LiveState) : LiveState :=
  let snapshot :=
    getWarehouseStatus instant round1 (live_readings st) (live_thresholds st) in
  {| live_readings := live_readings st;
     live_thresholds := live_thresholds st;
     live_alerts := live_alerts st;
     lastSync := lastSync st;
     isConnected := isConnected st;
     live_alarm := aggregation_effect (live_alarm st) snapshot |}.

(** The hook once mounted: the initial state, on which the effect has run. *)
Definition live_mount (instant : Z) : LiveState :=
  live_recompute instant
    {| live_readings := []; live_thresholds := DEFAULT_THRESHOLDS;
       live_alerts := []; lastSync := None; isConnected := false;
       live_alarm := alarm_init |}.

Definition live_step (st : LiveState) (ev : LiveEvent) : LiveState :=
  match ev with
  | ReadingsValue instant val =>
    live_recompute instant
      {| live_readings := subscribeToReadings_handler val;
         live_thresholds := live_thresholds st;
         live_alerts := live_alerts st;
         lastSync := Some instant;
         isConnected := true;
         live_alarm := live_alarm st |}
  | ThresholdsValue instant val =>
    live_recompute instant
      {| live_readings := live_readings st;
         live_thresholds := subscribeToThresholds_handler val;
         live_alerts := live_alerts st;
         lastSync := lastSync st;
         isConnected := isConnected st;
         live_alarm := live_alarm st |}
  | AlertsValue val =>
    {| live_readings := live_readings st;
       live_thresholds := live_thresholds st;
       live_alerts := subscribeToAlerts_handler val;
       lastSync := lastSync st;
       isConnected := isConnected st;
       live_alarm := live_alarm st |}
  | DismissPressed =>
    {| live_readings := live_readings st;
       live_thresholds := live_thresholds st;
       live_alerts := live_alerts st;
       lastSync := lastSync st;
       isConnected := isConnected st;
       live_alarm := dismissAmberAlert (live_alarm st) |}
  end.

Definition live_run (mounted : Z) (evs : list LiveEvent) : LiveState :=
  foldl live_step (live_mount mounted) evs.

End LiveWarehouse.

(** The instant of the last recomputation of a run. *)
Definition last_recompute (mounted : Z) (evs : list LiveEvent) : Z :=
  foldl (λ instant ev,
           match ev with
           | ReadingsValue i _ | ThresholdsValue i _ => i
           | _ => instant
           end) mounted evs.

(** The instants of the readings updates of a run, oldest first. *)
Definition readings_instants (evs : list LiveEvent) : list Z :=
  omap (λ ev, match ev with ReadingsValue i _ => Some i | _ => None end) evs.

(** ** Producers and consumers of the alert log *)

(** The record [pushAlert(alertPayload)] writes:
    [{ ...alertPayload, timestamp: serverTimestamp() }], the placeholder
    being resolved by the store to its own time. *)
Definition pushAlert_record (alertPayload : RawAlert) (serverTime : Z) : RawAlert :=
  {| raw_nodeId := raw_nodeId alertPayload;
     raw_type := raw_type alertPayload;
     raw_value := raw_value alertPayload;
     raw_threshold := raw_threshold alertPayload;
     raw_message := raw_message alertPayload;
     raw_timestamp := Some serverTime |}.

(** The list shown by the alert screens and exported by the alert log
    panel: all alerts under the filter ['All'], else those whose [type] is
    the filter. *)
Definition filter_alerts (filter : string) (alerts : list Alert) : list Alert :=
  if decide (filter = "All"%string) then alerts
  else base.filter (λ a, alert_type a = Some filter) alerts.

(** The three counters of the alert screen's summary chips. *)
Record AlertCounts : Type := mkAlertCounts {
  count_humidity : Z;
  count_temperature : Z;
  count_battery : Z
}.

(** The body of [alerts.forEach] in [counts]: the counter named by the
    alert's [type] is incremented; an alert of any other kind, or of none,
    leaves the three counters as they are. *)
Definition count_alert (c : AlertCounts) (a : Alert) : AlertCounts :=
  match alert_type a with
  | Some t =>
    if decide (t = "humidity"%string) then
      {| count_humidity := count_humidity c + 1;
         count_temperature := count_temperature c;
         count_battery := count_battery c |}
    else if decide (t = "temperature"%string) then
      {| count_humidity := count_humidity c;
         count_temperature := count_temperature c + 1;
         count_battery := count_battery c |}
    else if decide (t = "battery"%string) then
      {| count_humidity := count_humidity c;
         count_temperature := count_temperature c;
         count_battery := count_battery c + 1 |}
    else c
  | None => c
  end.

Definition alert_counts (alerts : list Alert) : AlertCounts :=
  foldl count_alert
    {| count_humidity := 0; count_temperature := 0; count_battery := 0 |} alerts.

(** [alerts.slice(0, 8)], the mini-feed of the desktop dashboard. *)
Definition recentAlerts (alerts : list Alert) : list Alert := take 8 alerts.

(** ** Consumers of the enriched records *)

(** [order[status] ?? 9] with
    [order = { Critical: 0, 'At Risk': 1, Optimal: 2, Offline: 3 }]. *)
Definition severity_rank (s : NodeStatus) : Z :=
  match s with
  | Critical => 0
  | AtRisk => 1
  | Optimal => 2
  | Offline => 3
  end.

(** The comparator of [sortedNodes]. *)
Definition by_severity (a b : EnrichedNode) : Z :=
  severity_rank (e_status a) - severity_rank (e_status b).

(** [sortedNodes] of the dashboards, on the list [values] that
    [Object.values(warehouseStatus.enrichedNodes)] enumerates. *)
Definition sortedNodes (values : list EnrichedNode) : list EnrichedNode :=
  Array_sort by_severity values.

(** [criticalNodes] of the amber alert overlay, on the same enumeration. *)
Definition criticalNodes (values : list EnrichedNode) : list EnrichedNode :=
  filter (λ n, e_status n = Critical) values.

(** [a === b] on two values that are numbers or absent: an absent value
    equals an absent one only, and numbers compare as IEEE numbers do. *)
Definition strict_equal (a b : option float) : bool :=
  match a, b with
  | Some x, Some y => PrimFloat.eqb x y
  | None, None => true
  | _, _ => false
  end.

(** The comparison function given to [memo] by the node card and by the
    node row; a result of [true] keeps the previous rendering. *)
Definition memo_areEqual (p n : EnrichedNode) : bool :=
  bool_decide (e_status p = e_status n)
  && strict_equal (e_hum p) (e_hum n)
  && strict_equal (e_temp p) (e_temp n)
  && strict_equal (e_battery p) (e_battery n)
  && Bool.eqb (e_isOnline p) (e_isOnline n).

(** An alert all of whose unquoted cells are plain. *)
Definition plain_alert : Alert :=
  {| alert_id := "-Nq2"%string;
     alert_nodeId := Some "n1"%string;
     alert_type := Some "humidity"%string;
     alert_value := Some 71%float;
     alert_threshold := Some 60%float;
     alert_message := Some "Humidity, again"%string;
     alert_timestamp := Some 1709035200000 |}.

(** A log of two alerts, and a payload to push. *)
Definition sample_log : list (string * RawAlert) :=
  [ ("-Na1"%string,
     mkRawAlert (Some "n1"%string) (Some "humidity"%string) (Some 71%float)
       (Some 60%float) None (Some 1709035100000));
    ("-Na2"%string,
     mkRawAlert (Some "n3"%string) (Some "battery"%string) (Some 15%float)
       (Some 20%float) (Some "Battery low"%string) None) ].

Definition sample_payload : RawAlert :=
  mkRawAlert (Some "n3"%string) (Some "temperature"%string) (Some 31%float)
    (Some 30%float) None None.

(** * Properties *)

(** ** Staleness and classification *)

Lemma isNodeStale_false_iff (now : Z) (ts : option Z) :
  isNodeStale now ts = false ↔
  ∃ t, ts = Some t ∧ t ≠ 0 ∧ now - t ≤ STALE_THRESHOLD_MS.
Proof.
  unfold isNodeStale. destruct ts as [t|].
  - destruct (Z.eqb_spec t 0) as [->|Hne].
    + split; [done | intros (? & [= <-] & ? & _); done].
    + rewrite Z.ltb_ge. split.
      * intros H. by exists t.
      * by intros (? & [= <-] & _ & ?).
  - split; [done | by intros (? & ? & _)].
Qed.

(** Once the clock is past the staleness window, a zero timestamp is as
    stale by age as it is by the falsy test, and the two policies agree. *)
Lemma isNodeStale_reference (now : Z) (ts : option Z) :
  STALE_THRESHOLD_MS < now → isNodeStale now ts = isStale_reference ts now.
Proof.
  unfold isNodeStale, isStale_reference, STALE_THRESHOLD_MS. intros Hnow.
  destruct ts as [t|]; [|done].
  destruct (Z.eqb_spec t 0) as [->|Hne].
  - symmetry. apply bool_decide_eq_true. lia.
  - destruct (Z.ltb_spec 120000 (now - t)).
    + symmetry. apply bool_decide_eq_true. lia.
    + symmetry. apply bool_decide_eq_false. lia.
Qed.

(** C1: with the clock past the staleness window (as any reading of the
    wall clock is), the classification of every reading under every
    thresholds object is the tiered reference one: Offline for an absent
    reading or a missing or too old timestamp, before anything else; then
    Critical above 1.1 times a ceiling; then At Risk above a ceiling; then
    Optimal. *)
Theorem getNodeStatus_refines_spec (now : Z) (node : option Reading)
    (thresholds : Thresholds) :
  STALE_THRESHOLD_MS < now →
  getNodeStatus now node thresholds = classify_reference node thresholds now.
Proof.
  intros Hnow. destruct node as [r|]; [|done].
  unfold getNodeStatus, classify_reference.
  rewrite (isNodeStale_reference now (timestamp r) Hnow).
  destruct (isStale_reference (timestamp r) now); [done|].
  cbv zeta.
  destruct (js_gt (hum r) (max_humidity thresholds * overshoot)
            || js_gt (temp r) (max_temperature thresholds * overshoot)); done.
Qed.

Lemma getNodeStatus_refines_spec_witness :
  STALE_THRESHOLD_MS < 1709035200000 ∧
  getNodeStatus 1709035200000
    (Some (mkReading (Some 85%float) (Some 20%float) (Some 50%float)
             (Some 1709035200000)))
    DEFAULT_THRESHOLDS = Critical.
Proof.
  split; [reflexivity|].
  rewrite (getNodeStatus_refines_spec 1709035200000 _ DEFAULT_THRESHOLDS);
    reflexivity.
Defined.

(** Staleness wins over every threshold check. *)
Lemma getNodeStatus_stale (now : Z) (r : Reading) (thresholds : Thresholds) :
  isNodeStale now (timestamp r) = true →
  getNodeStatus now (Some r) thresholds = Offline.
Proof. intros H. unfold getNodeStatus. by rewrite H. Qed.

(** C6: two readings that agree on humidity, temperature and timestamp get
    the same status under every thresholds object and at every time,
    whatever their battery levels are; in the aggregation loop they move
    the sums and the online, At Risk and Critical counters alike, so that
    the battery level reaches the low-battery list (and the copy of the
    reading kept in [enrichedNodes]) only. *)
Theorem getNodeStatus_battery_irrelevant (now : Z) (r1 r2 : Reading)
    (thresholds : Thresholds) :
  hum r1 = hum r2 → temp r1 = temp r2 → timestamp r1 = timestamp r2 →
  getNodeStatus now (Some r1) thresholds = getNodeStatus now (Some r2) thresholds
  ∧ ∀ (readings1 readings2 : Readings) (nodeId : string) (st : LoopState),
      reading_of readings1 nodeId = Some r1 →
      reading_of readings2 nodeId = Some r2 →
      let st1 := loop_body now readings1 thresholds st nodeId in
      let st2 := loop_body now readings2 thresholds st nodeId in
      tempSum st1 = tempSum st2 ∧ humSum st1 = humSum st2
      ∧ onlineCount st1 = onlineCount st2
      ∧ atRiskCount st1 = atRiskCount st2
      ∧ criticalCount st1 = criticalCount st2.
Proof.
  intros Hh Ht Hts.
  assert (getNodeStatus now (Some r1) thresholds
          = getNodeStatus now (Some r2) thresholds) as Hstatus.
  { unfold getNodeStatus. by rewrite Hh, Ht, Hts. }
  split; [exact Hstatus|].
  intros readings1 readings2 nodeId st H1 H2. unfold loop_body.
  rewrite H1, H2, Hstatus. simpl. by rewrite Hh, Ht.
Qed.

Lemma getNodeStatus_battery_irrelevant_witness :
  getNodeStatus 1709035200000
    (Some (mkReading (Some 63%float) (Some 20%float) (Some 5%float)
             (Some 1709035190000)))
    DEFAULT_THRESHOLDS
  = getNodeStatus 1709035200000
      (Some (mkReading (Some 63%float) (Some 20%float) None
               (Some 1709035190000)))
      DEFAULT_THRESHOLDS.
Proof.
  apply (getNodeStatus_battery_irrelevant 1709035200000
           (mkReading (Some 63%float) (Some 20%float) (Some 5%float)
              (Some 1709035190000))
           (mkReading (Some 63%float) (Some 20%float) None
              (Some 1709035190000))
           DEFAULT_THRESHOLDS); reflexivity.
Defined.

(** ** The aggregation loop *)

Section LoopInvariants.

Variable now : Z.
Variable readings : Readings.
Variable thresholds : Thresholds.

#[local] Abbreviation body := (loop_body now readings thresholds).
#[local] Abbreviation status_of := (unit_status now readings thresholds).
#[local] Abbreviation online := (online_among now readings thresholds).

Lemma is_online_true (s : NodeStatus) : is_online s = true ↔ s ≠ Offline.
Proof. unfold is_online. apply bool_decide_eq_true. Qed.

Lemma is_online_false (s : NodeStatus) : is_online s = false ↔ s = Offline.
Proof.
  unfold is_online. rewrite bool_decide_eq_false. split.
  - intros H. by destruct (decide (s = Offline)).
  - intros -> H. by apply H.
Qed.

Lemma online_among_cons (nodeId : string) (nodeIds : list string) :
  online (nodeId :: nodeIds) =
  if is_online (status_of nodeId) then nodeId :: online nodeIds
  else online nodeIds.
Proof.
  unfold online_among. rewrite filter_cons.
  destruct (decide (status_of nodeId ≠ Offline)) as [H|H].
  - apply is_online_true in H. by rewrite H.
  - apply dec_stable in H. apply is_online_false in H. by rewrite H.
Qed.

Lemma loop_onlineCount (nodeIds : list string) (st : LoopState) :
  onlineCount (foldl body st nodeIds) =
  onlineCount st + Z.of_nat (length (online nodeIds)).
Proof.
  revert st. induction nodeIds as [|nodeId nodeIds IH]; intros st; simpl.
  - cbn. lia.
  - rewrite IH, online_among_cons. unfold loop_body. simpl.
    fold (status_of nodeId).
    destruct (is_online (status_of nodeId)); simpl; lia.
Qed.

Lemma loop_criticalCount (nodeIds : list string) (st : LoopState) :
  criticalCount (foldl body st nodeIds) =
  criticalCount st
  + Z.of_nat (length (filter (λ nodeId, status_of nodeId = Critical) nodeIds)).
Proof.
  revert st. induction nodeIds as [|nodeId nodeIds IH]; intros st; simpl.
  - cbn. lia.
  - rewrite IH, filter_cons. unfold loop_body. simpl.
    fold (status_of nodeId).
    destruct (decide (status_of nodeId = Critical)); simpl; lia.
Qed.

Lemma loop_atRiskCount (nodeIds : list string) (st : LoopState) :
  atRiskCount (foldl body st nodeIds) =
  atRiskCount st
  + Z.of_nat (length (filter (λ nodeId, status_of nodeId = AtRisk) nodeIds)).
Proof.
  revert st. induction nodeIds as [|nodeId nodeIds IH]; intros st; simpl.
  - cbn. lia.
  - rewrite IH, filter_cons. unfold loop_body. simpl.
    fold (status_of nodeId).
    destruct (decide (status_of nodeId = AtRisk)); simpl; lia.
Qed.

Lemma loop_tempSum (nodeIds : list string) (st : LoopState) :
  tempSum (foldl body st nodeIds) =
  field_sum temp readings (tempSum st) (online nodeIds).
Proof.
  revert st. induction nodeIds as [|nodeId nodeIds IH]; intros st; simpl.
  - done.
  - rewrite IH, online_among_cons. unfold loop_body. simpl.
    fold (status_of nodeId).
    by destruct (is_online (status_of nodeId)).
Qed.

Lemma loop_humSum (nodeIds : list string) (st : LoopState) :
  humSum (foldl body st nodeIds) =
  field_sum hum readings (humSum st) (online nodeIds).
Proof.
  revert st. induction nodeIds as [|nodeId nodeIds IH]; intros st; simpl.
  - done.
  - rewrite IH, online_among_cons. unfold loop_body. simpl.
    fold (status_of nodeId).
    by destruct (is_online (status_of nodeId)).
Qed.

Lemma loop_lowBattery (nodeIds : list string) (st : LoopState) :
  lowBattery (foldl body st nodeIds) =
  lowBattery st ++
  filter (λ nodeId, low_battery thresholds (is_online (status_of nodeId))
                      (reading_of readings nodeId) = true) nodeIds.
Proof.
  revert st. induction nodeIds as [|nodeId nodeIds IH]; intros st; simpl.
  - cbn. by rewrite app_nil_r.
  - rewrite IH, filter_cons. unfold loop_body. simpl.
    fold (status_of nodeId).
    destruct (low_battery thresholds (is_online (status_of nodeId))
                (reading_of readings nodeId)); simpl.
    + by rewrite <- app_assoc.
    + done.
Qed.

Lemma loop_enriched_dom (nodeIds : list string) (st : LoopState) :
  dom (enriched (foldl body st nodeIds)) =
  dom (enriched st) ∪ list_to_set nodeIds.
Proof.
  revert st. induction nodeIds as [|nodeId nodeIds IH]; intros st; simpl.
  - by rewrite union_empty_r_L.
  - rewrite IH. unfold loop_body. simpl. rewrite dom_insert_L.
    by rewrite (comm_L (∪) {[nodeId]}), <- (assoc_L (∪)).
Qed.

Lemma loop_enriched_lookup (nodeIds : list string) (st : LoopState)
    (nodeId : string) (e : EnrichedNode) :
  enriched (foldl body st nodeIds) !! nodeId = Some e →
  nodeId ∈ nodeIds →
  e_nodeId e = nodeId ∧ e_status e = status_of nodeId ∧
  e_isOnline e = is_online (status_of nodeId).
Proof.
  revert st. induction nodeIds as [|k nodeIds IH] using rev_ind; intros st.
  - intros _ H. by apply elem_of_nil in H.
  - rewrite foldl_app. simpl. unfold loop_body at 1. simpl.
    destruct (decide (k = nodeId)) as [->|Hne].
    + rewrite lookup_insert_eq. intros [= <-] _. simpl. done.
    + rewrite lookup_insert_ne by done. intros Hl Hin.
      apply elem_of_app in Hin as [Hin|Hin].
      * by apply (IH st).
      * apply list_elem_of_singleton in Hin. congruence.
Qed.

End LoopInvariants.

(** ** The snapshot *)

Lemma length_filter_pos {A : Type} (P : A → Prop) `{!∀ x, Decision (P x)}
    (l : list A) :
  (0 < length (filter P l))%nat ↔ ∃ x, x ∈ l ∧ P x.
Proof.
  split.
  - intros Hlen. destruct (filter P l) as [|x l'] eqn:E; [simpl in Hlen; lia|].
    exists x. apply and_comm, (list_elem_of_filter P). rewrite E. left.
  - intros (x & Hx & HP).
    assert (x ∈ filter P l) as Hin by (by apply list_elem_of_filter).
    destruct (filter P l); [by apply elem_of_nil in Hin | simpl; lia].
Qed.

(** The early return for an empty map is what the loop and the closing
    expressions yield on no iteration at all, so the snapshot is always the
    record built after the loop. *)
Lemma getWarehouseStatus_loop (now : Z) (round1 : float → float)
    (readings : Readings) (thresholds : Thresholds) :
  let nodeIds := Object_keys readings in
  let st := run_loop now readings thresholds nodeIds in
  getWarehouseStatus now round1 readings thresholds =
  {| overallStatus := overall_of st;
     averageTemp := average round1 (tempSum st) (onlineCount st);
     averageHum := average round1 (humSum st) (onlineCount st);
     totalNodes := Z.of_nat (length nodeIds);
     onlineNodes := onlineCount st;
     offlineNodes := Z.of_nat (length nodeIds) - onlineCount st;
     atRiskNodesCount := atRiskCount st;
     criticalNodesCount := criticalCount st;
     lowBatteryNodes := lowBattery st;
     enrichedNodes := enriched st |}.
Proof.
  unfold getWarehouseStatus. destruct readings as [|entry rest]; [done|].
  by rewrite decide_False.
Qed.

Lemma onlineNodes_count (now : Z) (round1 : float → float)
    (readings : Readings) (thresholds : Thresholds) :
  onlineNodes (getWarehouseStatus now round1 readings thresholds) =
  Z.of_nat (length (online_units now readings thresholds)).
Proof.
  rewrite getWarehouseStatus_loop. simpl. unfold run_loop.
  rewrite loop_onlineCount. simpl. done.
Qed.

Lemma criticalNodes_count (now : Z) (round1 : float → float)
    (readings : Readings) (thresholds : Thresholds) :
  criticalNodesCount (getWarehouseStatus now round1 readings thresholds) =
  Z.of_nat (length (filter (λ nodeId, unit_status now readings thresholds nodeId = Critical)
                      (Object_keys readings))).
Proof.
  rewrite getWarehouseStatus_loop. simpl. unfold run_loop.
  rewrite loop_criticalCount. simpl. done.
Qed.

Lemma atRiskNodes_count (now : Z) (round1 : float → float)
    (readings : Readings) (thresholds : Thresholds) :
  atRiskNodesCount (getWarehouseStatus now round1 readings thresholds) =
  Z.of_nat (length (filter (λ nodeId, unit_status now readings thresholds nodeId = AtRisk)
                      (Object_keys readings))).
Proof.
  rewrite getWarehouseStatus_loop. simpl. unfold run_loop.
  rewrite loop_atRiskCount. simpl. done.
Qed.

Lemma status_among_units (now : Z) (readings : Readings) (thresholds : Thresholds)
    (s : NodeStatus) :
  s ∈ unit_statuses now readings thresholds ↔
  (0 < length (filter (λ nodeId, unit_status now readings thresholds nodeId = s)
                 (Object_keys readings)))%nat.
Proof.
  unfold unit_statuses. rewrite list_elem_of_fmap, length_filter_pos.
  split; intros (nodeId & H1 & H2); exists nodeId; done.
Qed.

Lemma overallStatus_snapshot (now : Z) (round1 : float → float)
    (readings : Readings) (thresholds : Thresholds) :
  let snapshot := getWarehouseStatus now round1 readings thresholds in
  overallStatus snapshot =
    if 0 <? criticalNodesCount snapshot then FleetCritical
    else if 0 <? atRiskNodesCount snapshot then FleetAtRisk
    else if onlineNodes snapshot =? 0 then NoData
    else FleetOptimal.
Proof. simpl. by rewrite getWarehouseStatus_loop. Qed.

Lemma count_pos_bool (n : nat) (P : Prop) `{!Decision P} :
  ((0 < n)%nat ↔ P) → (0 <? Z.of_nat n) = bool_decide P.
Proof.
  intros H. destruct (decide P) as [HP|HP].
  - rewrite bool_decide_true by done. apply Z.ltb_lt. apply H in HP. lia.
  - rewrite bool_decide_false by done. apply Z.ltb_ge.
    destruct n; [done|]. exfalso. apply HP, H. lia.
Qed.

Lemma count_zero_bool {A : Type} `{!EqDecision A} (l : list A) :
  (Z.of_nat (length l) =? 0) = bool_decide (l = []).
Proof. by destruct l. Qed.

Lemma online_units_elem (now : Z) (readings : Readings) (thresholds : Thresholds)
    (nodeId : string) :
  nodeId ∈ online_units now readings thresholds ↔
  nodeId ∈ Object_keys readings ∧ unit_status now readings thresholds nodeId ≠ Offline.
Proof.
  unfold online_units, online_among. rewrite list_elem_of_filter. tauto.
Qed.

Lemma no_online_units_all_offline (now : Z) (readings : Readings)
    (thresholds : Thresholds) (s : NodeStatus) :
  online_units now readings thresholds = [] →
  s ∈ unit_statuses now readings thresholds → s = Offline.
Proof.
  intros Hnil Hs. unfold unit_statuses in Hs.
  apply list_elem_of_fmap in Hs as (nodeId & -> & Hin).
  destruct (decide (unit_status now readings thresholds nodeId = Offline)) as [|Hne];
    [done|].
  assert (nodeId ∈ online_units now readings thresholds) as Hon
    by (by apply online_units_elem).
  rewrite Hnil in Hon. by apply elem_of_nil in Hon.
Qed.

(** C2: the overall status of the snapshot follows the precedence Critical,
    At Risk, No Data, Optimal over the units' classifications: Critical
    exactly when some (online) unit is Critical; failing that, At Risk when
    some unit is At Risk; failing that, No Data when no unit is online;
    Optimal otherwise.  The empty map gives No Data, and No Data is the
    status exactly when no unit is online or the map is empty. *)
Theorem overallStatus_precedence (now : Z) (round1 : float → float)
    (readings : Readings) (thresholds : Thresholds) :
  let snapshot := getWarehouseStatus now round1 readings thresholds in
  let statuses := unit_statuses now readings thresholds in
  let online := online_units now readings thresholds in
  overallStatus snapshot =
    (if bool_decide (Critical ∈ statuses) then FleetCritical
     else if bool_decide (AtRisk ∈ statuses) then FleetAtRisk
     else if bool_decide (online = []) then NoData
     else FleetOptimal)
  ∧ onlineNodes snapshot = Z.of_nat (length online)
  ∧ overallStatus (getWarehouseStatus now round1 [] thresholds) = NoData
  ∧ (overallStatus snapshot = FleetCritical ↔
     ∃ nodeId, nodeId ∈ online ∧
               unit_status now readings thresholds nodeId = Critical)
  ∧ (overallStatus snapshot = NoData ↔ online = [] ∨ readings = []).
Proof.
  intros snapshot statuses online.
  assert (overallStatus snapshot =
    (if bool_decide (Critical ∈ statuses) then FleetCritical
     else if bool_decide (AtRisk ∈ statuses) then FleetAtRisk
     else if bool_decide (online = []) then NoData
     else FleetOptimal)) as Hov.
  { subst snapshot. rewrite overallStatus_snapshot.
    rewrite criticalNodes_count, atRiskNodes_count, onlineNodes_count.
    rewrite (count_pos_bool _ (Critical ∈ statuses))
      by (symmetry; apply status_among_units).
    rewrite (count_pos_bool _ (AtRisk ∈ statuses))
      by (symmetry; apply status_among_units).
    by rewrite count_zero_bool. }
  split; [exact Hov|]. split; [apply onlineNodes_count|]. split; [done|].
  split.
  - rewrite Hov. transitivity (Critical ∈ statuses).
    + repeat case_bool_decide; split; (done || congruence).
    + unfold statuses, unit_statuses. rewrite list_elem_of_fmap.
      split.
      * intros (nodeId & Hs & Hin). exists nodeId. split; [|done].
        apply online_units_elem. split; [done|]. by rewrite <- Hs.
      * intros (nodeId & Hin & Hs). exists nodeId. split; [done|].
        by apply online_units_elem in Hin as [? _].
  - rewrite Hov. split.
    + repeat case_bool_decide; try done. intros _. by left.
    + intros H.
      assert (online = []) as Hnil.
      { destruct H as [H| ->]; [done|]. done. }
      assert (Critical ∉ statuses) as Hc.
      { intros Hin.
        by pose proof (no_online_units_all_offline _ _ _ _ Hnil Hin). }
      assert (AtRisk ∉ statuses) as Ha.
      { intros Hin.
        by pose proof (no_online_units_all_offline _ _ _ _ Hnil Hin). }
      rewrite (bool_decide_false _ Hc), (bool_decide_false _ Ha).
      by rewrite (bool_decide_true _ Hnil).
Qed.

Lemma all_stale_no_online_units (now : Z) (readings : Readings)
    (thresholds : Thresholds) :
  (∀ nodeId r, reading_of readings nodeId = Some r →
               isNodeStale now (timestamp r) = true) →
  online_units now readings thresholds = [].
Proof.
  intros Hstale.
  destruct (online_units now readings thresholds) as [|nodeId rest] eqn:E; [done|].
  assert (nodeId ∈ online_units now readings thresholds) as Hin
    by (rewrite E; left).
  apply online_units_elem in Hin as [_ Hne]. exfalso. apply Hne.
  unfold unit_status.
  destruct (reading_of readings nodeId) as [r|] eqn:Er; [|done].
  by apply getNodeStatus_stale, (Hstale nodeId).
Qed.

Lemma average_of_count (round1 : float → float) (sum : float) {A : Type}
    `{!EqDecision A} (l : list A) :
  average round1 sum (Z.of_nat (length l)) =
  if bool_decide (l = []) then 0%float
  else round1 (sum / float_of_Z (Z.of_nat (length l)))%float.
Proof. unfold average. by destruct l. Qed.

(** C5: the two averages of the snapshot are exactly zero when no unit is
    online (in particular when every reading is stale): no quotient is
    formed then, and the result is not a NaN.  With at least one unit
    online, each average is the sum of the field over the online units
    divided by their number, rounded to one decimal place. *)
Theorem averages_over_online_units (now : Z) (round1 : float → float)
    (readings : Readings) (thresholds : Thresholds) :
  let snapshot := getWarehouseStatus now round1 readings thresholds in
  let online := online_units now readings thresholds in
  let count := Z.of_nat (length online) in
  onlineNodes snapshot = count
  ∧ averageTemp snapshot =
      (if bool_decide (online = []) then 0%float
       else round1 (field_sum temp readings 0 online / float_of_Z count)%float)
  ∧ averageHum snapshot =
      (if bool_decide (online = []) then 0%float
       else round1 (field_sum hum readings 0 online / float_of_Z count)%float)
  ∧ (online = [] →
     averageTemp snapshot = 0%float ∧ averageHum snapshot = 0%float ∧
     PrimFloat.is_nan (averageTemp snapshot) = false ∧
     PrimFloat.is_nan (averageHum snapshot) = false)
  ∧ ((∀ nodeId r, reading_of readings nodeId = Some r →
                  isNodeStale now (timestamp r) = true) →
     online = []).
Proof.
  intros snapshot online count.
  assert (averageTemp snapshot =
      (if bool_decide (online = []) then 0%float
       else round1 (field_sum temp readings 0 online / float_of_Z count)%float))
    as Htemp.
  { subst snapshot. rewrite getWarehouseStatus_loop. simpl. unfold run_loop.
    rewrite loop_onlineCount, loop_tempSum. simpl.
    exact (average_of_count round1 _ online). }
  assert (averageHum snapshot =
      (if bool_decide (online = []) then 0%float
       else round1 (field_sum hum readings 0 online / float_of_Z count)%float))
    as Hhum.
  { subst snapshot. rewrite getWarehouseStatus_loop. simpl. unfold run_loop.
    rewrite loop_onlineCount, loop_humSum. simpl.
    exact (average_of_count round1 _ online). }
  split; [apply onlineNodes_count|]. split; [exact Htemp|]. split; [exact Hhum|].
  split.
  - intros Hnil. rewrite Htemp, Hhum, (bool_decide_true _ Hnil).
    repeat split; reflexivity.
  - apply all_stale_no_online_units.
Qed.

(** C9: with the property names of the readings object pairwise distinct,
    the snapshot counts every entry once ([totalNodes] is the number of
    entries of the input and of [enrichedNodes]), [totalNodes] is the sum
    of [onlineNodes] and [offlineNodes], the At Risk and Critical units
    together are at most the online ones, and every identifier in
    [lowBatteryNodes] names an online unit whose battery is present and
    below [min_battery]. *)
Theorem snapshot_count_invariants (now : Z) (round1 : float → float)
    (readings : Readings) (thresholds : Thresholds) :
  NoDup (Object_keys readings) →
  let snapshot := getWarehouseStatus now round1 readings thresholds in
  totalNodes snapshot = Z.of_nat (length readings)
  ∧ totalNodes snapshot = Z.of_nat (size (enrichedNodes snapshot))
  ∧ totalNodes snapshot = onlineNodes snapshot + offlineNodes snapshot
  ∧ 0 ≤ atRiskNodesCount snapshot
  ∧ 0 ≤ criticalNodesCount snapshot
  ∧ atRiskNodesCount snapshot + criticalNodesCount snapshot ≤ onlineNodes snapshot
  ∧ onlineNodes snapshot ≤ totalNodes snapshot
  ∧ Forall (λ nodeId,
      nodeId ∈ Object_keys readings ∧
      unit_status now readings thresholds nodeId ≠ Offline ∧
      ∃ r b, reading_of readings nodeId = Some r ∧ battery r = Some b ∧
             PrimFloat.ltb b (min_battery thresholds) = true)
      (lowBatteryNodes snapshot).
Proof.
  intros Hnodup snapshot. subst snapshot.
  rewrite criticalNodes_count, atRiskNodes_count, onlineNodes_count.
  rewrite getWarehouseStatus_loop. simpl. unfold run_loop.
  rewrite loop_onlineCount, loop_lowBattery. simpl.
  fold (online_units now readings thresholds).
  set (ids := Object_keys readings).
  set (status_of := unit_status now readings thresholds).
  assert (length ids = length readings) as Hlen
    by (unfold ids, Object_keys; apply length_fmap).
  assert (length (filter (λ nodeId, status_of nodeId = AtRisk) ids)
          + length (filter (λ nodeId, status_of nodeId = Critical) ids)
          ≤ length (online_units now readings thresholds))%nat as Hsev.
  { unfold online_units, online_among. fold ids. fold status_of.
    clear. induction ids as [|nodeId ids IH]; [done|].
    rewrite !filter_cons.
    destruct (status_of nodeId);
      repeat case_decide; simpl; try done; lia. }
  assert (length (online_units now readings thresholds) ≤ length ids)%nat as Hon
    by apply length_filter.
  repeat split; try lia.
  - f_equal. rewrite <- size_dom, loop_enriched_dom. simpl.
    rewrite dom_empty_L, union_empty_l_L. by rewrite size_list_to_set.
  - apply Forall_forall. intros nodeId Hin.
    apply list_elem_of_filter in Hin as [Hlow Hin].
    split; [done|]. unfold low_battery in Hlow.
    apply andb_prop in Hlow as [Hon' Hb].
    split; [exact (proj1 (is_online_true _) Hon')|].
    destruct (reading_of readings nodeId) as [r|]; simpl in Hb; [|done].
    destruct (battery r) as [b|] eqn:Eb; [|done]. by exists r, b.
Qed.

Lemma snapshot_count_invariants_witness :
  let snapshot :=
    getWarehouseStatus sample_now toFixed1 sample_readings DEFAULT_THRESHOLDS in
  NoDup (Object_keys sample_readings)
  ∧ totalNodes snapshot = 4
  ∧ totalNodes snapshot = Z.of_nat (size (enrichedNodes snapshot))
  ∧ atRiskNodesCount snapshot + criticalNodesCount snapshot ≤ onlineNodes snapshot
  ∧ lowBatteryNodes snapshot = ["n3"%string].
Proof.
  assert (NoDup (Object_keys sample_readings)) as Hnodup
    by (apply (bool_decide_unpack _); vm_compute; exact I).
  pose proof (snapshot_count_invariants sample_now toFixed1 sample_readings
                DEFAULT_THRESHOLDS Hnodup) as (H1 & H2 & _ & _ & _ & H3 & _).
  split; [exact Hnodup|]. split; [exact H1|]. split; [exact H2|].
  split; [exact H3|]. reflexivity.
Defined.

(** C10: a fresh reading (timestamp present and at most 120000 ms behind a
    clock that is itself past the staleness window) that carries neither
    humidity nor temperature is classified Optimal, is counted as online by
    the loop, and adds zero to both sums. *)
Theorem fresh_reading_without_values (now : Z) (readings : Readings)
    (thresholds : Thresholds) (st : LoopState) (nodeId : string)
    (r : Reading) (t : Z) :
  STALE_THRESHOLD_MS < now →
  reading_of readings nodeId = Some r →
  hum r = None → temp r = None →
  timestamp r = Some t → now - t ≤ STALE_THRESHOLD_MS →
  let st' := loop_body now readings thresholds st nodeId in
  getNodeStatus now (Some r) thresholds = Optimal
  ∧ is_online (getNodeStatus now (Some r) thresholds) = true
  ∧ onlineCount st' = onlineCount st + 1
  ∧ tempSum st' = (tempSum st + 0)%float
  ∧ humSum st' = (humSum st + 0)%float
  ∧ atRiskCount st' = atRiskCount st
  ∧ criticalCount st' = criticalCount st.
Proof.
  intros Hnow Hr Hhum Htemp Hts Hfresh st'.
  assert (isNodeStale now (timestamp r) = false) as Hstale.
  { apply isNodeStale_false_iff. exists t.
    unfold STALE_THRESHOLD_MS in *. repeat split; [done | lia | lia]. }
  assert (getNodeStatus now (Some r) thresholds = Optimal) as Hopt.
  { unfold getNodeStatus. by rewrite Hstale, Hhum, Htemp. }
  subst st'. unfold loop_body. rewrite Hr, Hopt. simpl.
  by rewrite Hhum, Htemp.
Qed.

Lemma fresh_reading_without_values_witness :
  let st' := loop_body sample_now sample_readings DEFAULT_THRESHOLDS loop_init
               "n4"%string in
  unit_status sample_now sample_readings DEFAULT_THRESHOLDS "n4"%string = Optimal
  ∧ onlineCount st' = 1
  ∧ tempSum st' = (0 + 0)%float.
Proof.
  pose proof (fresh_reading_without_values sample_now sample_readings
                DEFAULT_THRESHOLDS loop_init "n4"%string
                (mkReading None None None (Some (sample_now - 5000)))
                (sample_now - 5000)
                eq_refl eq_refl eq_refl eq_refl eq_refl) as H.
  destruct H as (H1 & _ & H2 & H3 & _).
  - vm_compute. discriminate.
  - split; [exact H1|]. split; [exact H2|exact H3].
Defined.

(** The examples of the specification: humidity at 1.15, 1.05 and 0.9
    times the default ceiling, temperature safe. *)
Example humidity_tiers :
  let at_hum h :=
    getNodeStatus sample_now
      (Some (mkReading (Some h) (Some 20%float) (Some 50%float) (Some sample_now)))
      DEFAULT_THRESHOLDS in
  at_hum 69%float = Critical ∧ at_hum 63%float = AtRisk ∧ at_hum 54%float = Optimal.
Proof. repeat split; reflexivity. Qed.

(** A reading silent for more than 120 s is Offline whatever it reports. *)
Example silent_unit_offline :
  getNodeStatus sample_now
    (Some (mkReading (Some 85%float) (Some 45%float) (Some 50%float)
             (Some (sample_now - 120001))))
    DEFAULT_THRESHOLDS = Offline.
Proof. reflexivity. Qed.

(** No readings at all. *)
Example empty_fleet :
  let snapshot := getWarehouseStatus sample_now toFixed1 [] DEFAULT_THRESHOLDS in
  overallStatus snapshot = NoData ∧ totalNodes snapshot = 0
  ∧ enrichedNodes snapshot = ∅.
Proof. repeat split; reflexivity. Qed.

(** The sample fleet, evaluated: one Critical, one Offline, one At Risk and
    one Optimal unit. *)
Example sample_statuses :
  unit_statuses sample_now sample_readings DEFAULT_THRESHOLDS =
  [Critical; Offline; AtRisk; Optimal].
Proof. reflexivity. Qed.

Example sample_snapshot :
  let snapshot :=
    getWarehouseStatus sample_now toFixed1 sample_readings DEFAULT_THRESHOLDS in
  overallStatus snapshot = FleetCritical
  ∧ onlineNodes snapshot = 3 ∧ offlineNodes snapshot = 1
  ∧ averageHum snapshot = (467 / 10)%float
  ∧ averageTemp snapshot = 17%float.
Proof. repeat split; reflexivity. Qed.

(** The example of the specification: a single unit at 85 % humidity under
    the default ceiling of 60 %. *)
Example single_critical_unit :
  let readings : Readings :=
    [("n1"%string,
      Some (mkReading (Some 85%float) (Some 20%float) (Some 50%float)
              (Some sample_now)))] in
  let snapshot := getWarehouseStatus sample_now toFixed1 readings DEFAULT_THRESHOLDS in
  unit_statuses sample_now readings DEFAULT_THRESHOLDS = [Critical]
  ∧ overallStatus snapshot = FleetCritical
  ∧ averageHum snapshot = 85%float
  ∧ onlineNodes snapshot = 1.
Proof. repeat split; reflexivity. Qed.

(** ** Transition-triggered alarm *)

(** The status the effect compares a snapshot with: the one recorded in the
    ref for the first snapshot of a run, the previous snapshot's later on. *)
Lemma activations_lookup (snapshots : list WarehouseStatus) (st : AlarmState)
    (i : nat) (s : WarehouseStatus) :
  snapshots !! i = Some s →
  activations st snapshots !! i =
  Some (enters_critical
          (match i with
           | O => prevOverall st
           | S j => overallStatus <$> snapshots !! j
           end) s).
Proof.
  revert st i. induction snapshots as [|a rest IH]; intros st i Hi.
  - by rewrite lookup_nil in Hi.
  - destruct i as [|j]; simpl in *.
    + by injection Hi as ->.
    + rewrite (IH (aggregation_effect st a) j Hi). by destruct j.
Qed.

Lemma length_activations (snapshots : list WarehouseStatus) (st : AlarmState) :
  length (activations st snapshots) = length snapshots.
Proof.
  revert st. induction snapshots as [|a rest IH]; intros st; simpl; [done|].
  by rewrite IH.
Qed.

Lemma enters_critical_true (prev : option OverallStatus) (s : WarehouseStatus) :
  enters_critical prev s = true ↔
  overallStatus s = FleetCritical ∧ prev ≠ Some FleetCritical.
Proof.
  unfold enters_critical.
  rewrite andb_true_iff, !bool_decide_eq_true. done.
Qed.

(** The flag after a run of recomputations: set already, or set by one of
    the activations of the run. *)
Lemma amberAlertActive_run (snapshots : list WarehouseStatus) (st : AlarmState) :
  amberAlertActive (hook_run st (Recomputed <$> snapshots)) =
  amberAlertActive st || bool_decide (true ∈ activations st snapshots).
Proof.
  unfold hook_run. revert st.
  induction snapshots as [|a rest IH]; intros st; simpl.
  - by rewrite orb_false_r.
  - rewrite IH. simpl.
    destruct (enters_critical (prevOverall st) a) eqn:E.
    + rewrite (bool_decide_true (true ∈ true :: _)) by left.
      by rewrite orb_true_r.
    + destruct (amberAlertActive st); [done|].
      rewrite !orb_false_l.
      apply bool_decide_ext. rewrite elem_of_cons. split; [by right|].
      by intros [?|?].
Qed.

(** C3: starting with no status recorded, the alarm is activated on exactly
    those snapshots that are Critical and whose predecessor, if any, was
    not; while the status stays Critical nothing more is activated.  Every
    run whose overall statuses read Optimal, Critical, Critical, Optimal,
    Critical has two activations. *)
Theorem alarm_edge_triggered (snapshots : list WarehouseStatus) :
  (∀ i s, snapshots !! i = Some s →
     (activations alarm_init snapshots !! i = Some true ↔
      overallStatus s = FleetCritical ∧
      predecessor_status snapshots i ≠ Some FleetCritical))
  ∧ (∀ i s, snapshots !! i = Some s →
       predecessor_status snapshots i = Some FleetCritical →
       activations alarm_init snapshots !! i = Some false)
  ∧ length (activations alarm_init snapshots) = length snapshots
  ∧ (overallStatus <$> snapshots =
       [FleetOptimal; FleetCritical; FleetCritical; FleetOptimal; FleetCritical] →
     activation_count snapshots = 2%nat).
Proof.
  assert (∀ i s, snapshots !! i = Some s →
            activations alarm_init snapshots !! i =
            Some (enters_critical (predecessor_status snapshots i) s)) as Hact.
  { intros i s Hi. rewrite (activations_lookup _ _ _ _ Hi). by destruct i. }
  split; [|split; [|split]].
  - intros i s Hi. rewrite (Hact i s Hi), <- enters_critical_true.
    split; [by intros [= ->] | by intros ->].
  - intros i s Hi Hprev. rewrite (Hact i s Hi). f_equal.
    unfold enters_critical. rewrite Hprev.
    rewrite (bool_decide_false (Some FleetCritical ≠ Some FleetCritical))
      by (intros H; by apply H).
    by rewrite andb_false_r.
  - apply length_activations.
  - intros Hseq.
    destruct snapshots as [|s1 [|s2 [|s3 [|s4 [|s5 [|s6 rest]]]]]];
      try discriminate Hseq.
    injection Hseq as H1 H2 H3 H4 H5.
    unfold activation_count. simpl. unfold enters_critical. simpl.
    rewrite H1, H2, H3, H4, H5. reflexivity.
Qed.

(** An alarmed hook stays alarmed through every recomputation. *)
Lemma aggregation_effect_latched (st : AlarmState) (snapshot : WarehouseStatus) :
  amberAlertActive st = true →
  amberAlertActive (aggregation_effect st snapshot) = true.
Proof.
  intros H. unfold aggregation_effect. simpl. rewrite H.
  by destruct (enters_critical (prevOverall st) snapshot).
Qed.

Lemma activation_in_run (snapshots : list WarehouseStatus) (st : AlarmState) :
  true ∈ activations st snapshots ↔
  ∃ i s, snapshots !! i = Some s ∧
         enters_critical
           (match i with
            | O => prevOverall st
            | S j => overallStatus <$> snapshots !! j
            end) s = true.
Proof.
  rewrite list_elem_of_lookup. split.
  - intros (i & Hi).
    assert (is_Some (snapshots !! i)) as [s Hs].
    { apply lookup_lt_is_Some. rewrite <- (length_activations _ st).
      by apply lookup_lt_is_Some. }
    exists i, s. split; [done|].
    rewrite (activations_lookup _ _ _ _ Hs) in Hi. by injection Hi.
  - intros (i & s & Hs & He). exists i.
    by rewrite (activations_lookup _ _ _ _ Hs), He.
Qed.

(** C4, as the hook behaves: a snapshot whose overall status is not
    Critical does not return the alarm to quiescent. *)
Lemma alarm_survives_recovery :
  let alarmed := hook_run alarm_init [Recomputed (snapshot_with FleetCritical)] in
  let recovered := snapshot_with FleetOptimal in
  amberAlertActive alarmed = true
  ∧ overallStatus recovered ≠ FleetCritical
  ∧ amberAlertActive (hook_step alarmed (Recomputed recovered)) = true.
Proof. repeat split. discriminate. Qed.

(** C4 (amended): an alarmed hook stays alarmed through every later
    snapshot, Critical or not; the one event that returns it to quiescent
    is the dismissal, which leaves the snapshot and the recorded status
    alone.  After a
    dismissal made while the status is still Critical the alarm is raised
    again exactly by a fresh entry into Critical, that is by a Critical
    snapshot that follows a snapshot that was not; as long as the status
    stays Critical the alarm stays quiescent. *)
Theorem alarm_latched_until_dismissed (st : AlarmState)
    (snapshots : list WarehouseStatus) :
  amberAlertActive st = true →
  amberAlertActive (hook_run st (Recomputed <$> snapshots)) = true
  ∧ (∀ ev, amberAlertActive (hook_step st ev) = false ↔ ev = Dismissed)
  ∧ warehouseStatus (dismissAmberAlert st) = warehouseStatus st
  ∧ prevOverall (dismissAmberAlert st) = prevOverall st
  ∧ (prevOverall st = Some FleetCritical →
     (amberAlertActive
        (hook_run (dismissAmberAlert st) (Recomputed <$> snapshots)) = true ↔
      ∃ j p s, snapshots !! j = Some p ∧ overallStatus p ≠ FleetCritical ∧
               snapshots !! S j = Some s ∧ overallStatus s = FleetCritical)
     ∧ (Forall (λ s, overallStatus s = FleetCritical) snapshots →
        amberAlertActive
          (hook_run (dismissAmberAlert st) (Recomputed <$> snapshots)) = false)).
Proof.
  intros Hactive.
  assert (∀ l, prevOverall st = Some FleetCritical →
    (amberAlertActive (hook_run (dismissAmberAlert st) (Recomputed <$> l)) = true ↔
     ∃ j p s, l !! j = Some p ∧ overallStatus p ≠ FleetCritical ∧
              l !! S j = Some s ∧ overallStatus s = FleetCritical)) as Hfresh.
  { intros l Hprev. rewrite amberAlertActive_run. simpl.
    rewrite bool_decide_eq_true, activation_in_run. split.
    - intros (i & s & Hs & He). apply enters_critical_true in He as [Hc Hp].
      destruct i as [|j]; simpl in Hp; [by rewrite Hprev in Hp|].
      destruct (l !! j) as [p|] eqn:Ep.
      + exists j, p, s. repeat split; try done.
        intros Hpc. apply Hp. simpl. by rewrite Hpc.
      + apply lookup_ge_None in Ep. apply lookup_lt_Some in Hs. lia.
    - intros (j & p & s & Hp & Hpc & Hs & Hc). exists (S j), s.
      split; [done|]. apply enters_critical_true. split; [done|].
      rewrite Hp. simpl. by intros [= ?]. }
  split; [|split; [|split; [|split; [|intros Hprev; split]]]].
  - rewrite amberAlertActive_run. by rewrite Hactive.
  - intros [snapshot|].
    + cbn [hook_step].
      rewrite (aggregation_effect_latched st snapshot Hactive). by split.
    + by split.
  - done.
  - done.
  - by apply Hfresh.
  - intros Hall.
    destruct (amberAlertActive
                (hook_run (dismissAmberAlert st) (Recomputed <$> snapshots)))
      eqn:E; [|done].
    apply (Hfresh snapshots Hprev) in E as (j & p & s & Hp & Hpc & _).
    exfalso. apply Hpc.
    by apply (proj1 (Forall_lookup _ _) Hall j p).
Qed.

Lemma alarm_latched_until_dismissed_witness :
  let alarmed := hook_run alarm_init [Recomputed (snapshot_with FleetCritical)] in
  amberAlertActive alarmed = true
  ∧ amberAlertActive
      (hook_run alarmed
         (Recomputed <$> [snapshot_with FleetOptimal; snapshot_with FleetAtRisk])) = true
  ∧ amberAlertActive
      (hook_run (dismissAmberAlert alarmed)
         (Recomputed <$> [snapshot_with FleetCritical; snapshot_with FleetCritical])) = false.
Proof.
  pose (alarmed := hook_run alarm_init [Recomputed (snapshot_with FleetCritical)]).
  assert (amberAlertActive alarmed = true) as Hactive by reflexivity.
  split; [exact Hactive|]. split.
  - exact (proj1 (alarm_latched_until_dismissed alarmed
                    [snapshot_with FleetOptimal; snapshot_with FleetAtRisk]
                    Hactive)).
  - reflexivity.
Defined.

(** ** Alert log projection *)

Section SortSpec.

Context {A : Type} (compareFn : A → A → Z).

(** [a] may stand ahead of [b]. *)
#[local] Abbreviation ahead := (λ a b : A, compareFn a b ≤ 0).

Lemma sort_insert_Permutation (x : A) (l : list A) :
  sort_insert compareFn x l ≡ₚ x :: l.
Proof.
  induction l as [|y l IH]; simpl; [done|].
  destruct (compareFn x y <=? 0); [done|].
  rewrite IH. apply Permutation_swap.
Qed.

Lemma Array_sort_Permutation (l : list A) : Array_sort compareFn l ≡ₚ l.
Proof.
  induction l as [|x l IH]; simpl; [done|].
  by rewrite sort_insert_Permutation, IH.
Qed.

(** The comparator is consistent: it orders any two elements one way or the
    other, and transitively. *)
Hypothesis ahead_total : ∀ a b, ahead a b ∨ ahead b a.
Hypothesis ahead_trans : ∀ a b c, ahead a b → ahead b c → ahead a c.

Lemma sort_insert_sorted (x : A) (l : list A) :
  StronglySorted ahead l → StronglySorted ahead (sort_insert compareFn x l).
Proof.
  induction 1 as [|y l Hsorted IH Hall]; simpl.
  - repeat constructor.
  - destruct (Z.leb_spec (compareFn x y) 0) as [Hle|Hgt].
    + constructor; [by constructor|]. constructor; [done|].
      eapply Forall_impl; [exact Hall|]. intros z Hz. by eapply ahead_trans.
    + constructor; [done|].
      rewrite sort_insert_Permutation. constructor; [|done].
      destruct (ahead_total x y); [lia|done].
Qed.

Lemma Array_sort_sorted (l : list A) : StronglySorted ahead (Array_sort compareFn l).
Proof.
  induction l as [|x l IH]; simpl; [constructor|].
  by apply sort_insert_sorted.
Qed.

(** The sort is stable: a list already in order comes back as it is, equal
    elements included. *)
Lemma Array_sort_stable (l : list A) :
  StronglySorted ahead l → Array_sort compareFn l = l.
Proof.
  induction 1 as [|x l Hsorted IH Hall]; simpl; [done|].
  rewrite IH. destruct Hall as [|y l' Hxy _]; simpl; [done|].
  by rewrite (proj2 (Z.leb_le _ _) Hxy).
Qed.

End SortSpec.

Lemma newest_first_ahead (a b : Alert) :
  newest_first a b ≤ 0 ↔ timestamp_or_zero b ≤ timestamp_or_zero a.
Proof. unfold newest_first. lia. Qed.

Lemma StronglySorted_weaken {A : Type} (R S : A → A → Prop) (l : list A) :
  (∀ a b, R a b → S a b) → StronglySorted R l → StronglySorted S l.
Proof.
  intros HRS. induction 1 as [|x l Hs IH Hall]; constructor; [done|].
  eapply Forall_impl; [exact Hall|]. intros y. apply HRS.
Qed.

Lemma StronglySorted_lookup {A : Type} (R : A → A → Prop) (l : list A)
    (i j : nat) (a b : A) :
  StronglySorted R l → (i < j)%nat → l !! i = Some a → l !! j = Some b → R a b.
Proof.
  intros Hsorted. revert i j. induction Hsorted as [|x l Hs IH Hall]; intros i j Hij Hi Hj.
  - by rewrite lookup_nil in Hi.
  - destruct j as [|j]; [lia|]. simpl in Hj. destruct i as [|i]; simpl in Hi.
    + injection Hi as ->. rewrite Forall_forall in Hall. apply Hall.
      by eapply list_elem_of_lookup_2.
    + apply (IH i j); [lia|done|done].
Qed.

(** C7: the projection of a map of raw alert records is a list holding, for
    every entry of the map and once each, the record made of the entry's key
    as identifier and of the raw record's fields; it is in descending order
    of timestamp, a missing timestamp counting as zero. *)
Theorem projectAlerts_newest_first (raw : list (string * RawAlert)) :
  let alerts := subscribeToAlerts_handler (Some raw) in
  alerts ≡ₚ alert_of_entry <$> raw
  ∧ length alerts = length raw
  ∧ alert_id <$> alerts ≡ₚ Object_keys raw
  ∧ (∀ a, a ∈ alerts ↔
       ∃ id r, (id, r) ∈ raw ∧
         a = {| alert_id := id; alert_nodeId := raw_nodeId r;
                alert_type := raw_type r; alert_value := raw_value r;
                alert_threshold := raw_threshold r;
                alert_message := raw_message r;
                alert_timestamp := raw_timestamp r |})
  ∧ StronglySorted (λ a b, default 0 (alert_timestamp b) ≤ default 0 (alert_timestamp a))
      alerts
  ∧ (∀ i j a b, (i < j)%nat → alerts !! i = Some a → alerts !! j = Some b →
       default 0 (alert_timestamp b) ≤ default 0 (alert_timestamp a)).
Proof.
  intros alerts.
  assert (alerts ≡ₚ alert_of_entry <$> raw) as Hperm
    by apply Array_sort_Permutation.
  assert (StronglySorted
            (λ a b, default 0 (alert_timestamp b) ≤ default 0 (alert_timestamp a))
            alerts) as Hsorted.
  { eapply StronglySorted_weaken; [|apply (Array_sort_sorted newest_first)].
    - intros a b. apply newest_first_ahead.
    - intros a b. unfold newest_first. lia.
    - intros a b c. unfold newest_first. lia. }
  split; [exact Hperm|]. split; [by rewrite Hperm, length_fmap|].
  split.
  { rewrite Hperm, <- list_fmap_compose. unfold Object_keys.
    assert ((alert_id ∘ alert_of_entry) <$> raw = raw.*1) as ->; [|done].
    apply list_fmap_ext. by intros _ [id r] _. }
  split.
  { intros a. rewrite Hperm, list_elem_of_fmap. split.
    - intros ([id r] & -> & Hin). by exists id, r.
    - intros (id & r & Hin & ->). by exists (id, r). }
  split; [exact Hsorted|].
  intros i j a b Hij Hi Hj.
  exact (StronglySorted_lookup _ alerts i j a b Hsorted Hij Hi Hj).
Qed.

(** ** CSV export *)

Lemma append_cons (a : ascii) (s t : string) :
  String a s +:+ t = String a (s +:+ t).
Proof. reflexivity. Qed.

Lemma append_empty_l (t : string) : EmptyString +:+ t = t.
Proof. reflexivity. Qed.

Lemma append_str_assoc (acc : string) (c : ascii) (w : string) :
  (acc +:+ str c) +:+ w = acc +:+ String c w.
Proof.
  induction acc as [|a acc IH]; [done|]. by rewrite !append_cons, IH.
Qed.

Lemma append_empty_r (s : string) : s +:+ EmptyString = s.
Proof. induction s as [|a s IH]; [done|]. by rewrite append_cons, IH. Qed.

(** An unquoted cell free of commas and quotes is read back whole. *)
Lemma csv_read_row_plain (w acc rest : string) :
  plain_cell w = true →
  csv_read_row Plain acc (w +:+ str comma +:+ rest) =
  (acc +:+ w) :: csv_read_row Plain EmptyString rest.
Proof.
  change (str comma +:+ rest) with (String comma rest).
  revert acc. induction w as [|c w IH]; intros acc Hw.
  - by rewrite append_empty_l, append_empty_r.
  - simpl in Hw. apply andb_prop in Hw as [Hc Hw].
    apply andb_prop in Hc as [Hc1 Hc2].
    apply bool_decide_eq_true in Hc1, Hc2.
    rewrite append_cons. simpl.
    rewrite decide_False, decide_False by done.
    by rewrite IH, append_str_assoc by done.
Qed.

(** A quoted cell is read back as the text that was escaped, whatever
    that text holds. *)
Lemma csv_read_row_quoted (message acc : string) :
  csv_read_row Quoted acc (double_quotes message +:+ str dquote) =
  [acc +:+ message].
Proof.
  revert acc. induction message as [|c m IH]; intros acc.
  - by rewrite append_empty_r.
  - simpl. destruct (decide (c = dquote)) as [->|Hc].
    + rewrite !append_cons. simpl. by rewrite IH, append_str_assoc.
    + rewrite append_cons. simpl. rewrite decide_False by done.
      by rewrite IH, append_str_assoc.
Qed.

Section CsvProperties.

Variable Number_toString : float → string.
Variable iso_format : Z → string.

#[local] Abbreviation row_of := (csv_row Number_toString iso_format).
#[local] Abbreviation export := (alertsToCsv Number_toString iso_format).

(** The export is the header line followed by one element of [rows] per
    alert, the elements separated by line breaks. *)
Lemma alertsToCsv_rows (alerts : list Alert) (csv : string) :
  export alerts = Some csv →
  ∃ rows, mapM row_of alerts = Some rows ∧
          length rows = length alerts ∧
          csv = csv_header +:+ String.concat (str newline) rows.
Proof.
  unfold alertsToCsv. intros H.
  destruct (mapM row_of alerts) as [rows|] eqn:E; [|done].
  simpl in H. injection H as <-. exists rows. split; [done|]. split; [|done].
  symmetry. by apply length_mapM in E.
Qed.

(** X21: when the cells written without quotes are free of commas and
    double quotes, reading a row back yields every field value of the
    record, the message included whatever characters it holds. *)
Lemma csv_row_roundtrip (a : Alert) (row : string) :
  row_of a = Some row →
  ∃ ts, csv_timestamp iso_format (alert_timestamp a) = Some ts ∧
    (Forall (λ w, plain_cell w = true)
       (take 6 (alert_texts Number_toString ts a)) →
     csv_read_row Plain EmptyString row = alert_texts Number_toString ts a).
Proof.
  unfold csv_row, csv_cells.
  destruct (csv_timestamp iso_format (alert_timestamp a)) as [ts|]; [|done].
  simpl. intros [= <-]. exists ts. split; [done|].
  unfold alert_texts. simpl. intros Hplain.
  repeat (apply Forall_cons in Hplain as [? Hplain]).
  rewrite !csv_read_row_plain by done. unfold csv_quote. simpl.
  by rewrite csv_read_row_quoted.
Qed.

(** C8, on an alert whose node identifier contains a comma: the row is
    written, but its cells read [dock] under Node and [3] under Type, and
    the export is the very text written for a different alert. *)
Theorem alertsToCsv_comma_in_nodeId :
  alert_nodeId dock_alert = Some "dock,3"%string
  ∧ dock_alert ≠ shifted_alert
  ∧ is_Some (export [dock_alert])
  ∧ export [dock_alert] = export [shifted_alert]
  ∧ ∃ row cells,
      row_of dock_alert = Some row ∧
      csv_read_row Plain EmptyString row =
        "-Nq1"%string :: "dock"%string :: "3"%string :: "humidity"%string :: cells.
Proof.
  split; [done|]. split; [done|]. split; [by eexists|]. split; [done|].
  eexists _, _. split; [reflexivity|]. simpl. reflexivity.
Qed.

End CsvProperties.

(** * Further properties of the engine *)

(** ** Enriched records *)

Lemma loop_enriched_entry (now : Z) (readings : Readings) (thresholds : Thresholds)
    (nodeIds : list string) (st : LoopState) (nodeId : string) :
  enriched (foldl (loop_body now readings thresholds) st nodeIds) !! nodeId =
  if decide (nodeId ∈ nodeIds) then Some (enriched_entry now readings thresholds nodeId)
  else enriched st !! nodeId.
Proof.
  revert st. induction nodeIds as [|k nodeIds IH] using rev_ind; intros st.
  - rewrite decide_False by apply not_elem_of_nil. done.
  - rewrite foldl_app. simpl. unfold loop_body at 1. simpl.
    fold (enriched_entry now readings thresholds k).
    destruct (decide (k = nodeId)) as [->|Hne].
    + rewrite lookup_insert_eq.
      rewrite decide_True; [done|]. apply elem_of_app. right. left.
    + rewrite lookup_insert_ne by done. rewrite IH.
      destruct (decide (nodeId ∈ nodeIds)) as [Hin|Hin].
      * rewrite decide_True; [done|]. apply elem_of_app. by left.
      * rewrite decide_False; [done|]. intros [?|Hk]%elem_of_app; [done|].
        apply list_elem_of_singleton in Hk. congruence.
Qed.

Lemma enrichedNodes_entry (now : Z) (round1 : float → float)
    (readings : Readings) (thresholds : Thresholds) (nodeId : string) :
  enrichedNodes (getWarehouseStatus now round1 readings thresholds) !! nodeId =
  if decide (nodeId ∈ Object_keys readings)
  then Some (enriched_entry now readings thresholds nodeId) else None.
Proof.
  rewrite getWarehouseStatus_loop. simpl. unfold run_loop.
  rewrite loop_enriched_entry. by destruct (decide _).
Qed.

(** X1: every node identifier of the readings has a record in
    [enrichedNodes], no other name has one, and the record of a node holds
    the fields of its reading, its identifier, the status the classifier
    gives it, the matching online flag and the seconds since it was seen. *)
Theorem enrichedNodes_lookup (now : Z) (round1 : float → float)
    (readings : Readings) (thresholds : Thresholds) (nodeId : string) :
  let snapshot := getWarehouseStatus now round1 readings thresholds in
  enrichedNodes snapshot !! nodeId =
    (if decide (nodeId ∈ Object_keys readings)
     then Some (enriched_entry now readings thresholds nodeId) else None)
  ∧ (∀ e, enrichedNodes snapshot !! nodeId = Some e →
        e_nodeId e = nodeId
        ∧ e_status e = unit_status now readings thresholds nodeId
        ∧ (e_isOnline e = true ↔ e_status e ≠ Offline)
        ∧ (e_status e = Offline → e_isOnline e = false)).
Proof.
  intros snapshot.
  assert (enrichedNodes snapshot !! nodeId =
    (if decide (nodeId ∈ Object_keys readings)
     then Some (enriched_entry now readings thresholds nodeId) else None)) as Hl.
  { apply enrichedNodes_entry. }
  split; [exact Hl|]. intros e He. rewrite Hl in He.
  destruct (decide (nodeId ∈ Object_keys readings)); [|done].
  injection He as <-. simpl. repeat split.
  - apply is_online_true.
  - apply is_online_true.
  - intros ->. done.
Qed.

(** X2: a unit the snapshot shows online was last seen at most 120 seconds
    ago, and an offline unit for which a last-seen figure is shown was last
    seen at least 120 seconds ago. *)
Theorem lastSeenAgo_bounds (now : Z) (round1 : float → float)
    (readings : Readings) (thresholds : Thresholds) (nodeId : string)
    (e : EnrichedNode) :
  enrichedNodes (getWarehouseStatus now round1 readings thresholds) !! nodeId
    = Some e →
  (e_isOnline e = true → ∃ s, e_lastSeenAgo e = Some s ∧ s ≤ 120)
  ∧ (e_isOnline e = false → ∀ s, e_lastSeenAgo e = Some s → 120 ≤ s).
Proof.
  intros He. rewrite enrichedNodes_entry in He.
  destruct (decide _); [|done]. injection He as <-.
  unfold enriched_entry. simpl.
  destruct (reading_of readings nodeId) as [r|]; simpl.
  - unfold lastSeenAgo_of, getNodeStatus, isNodeStale, STALE_THRESHOLD_MS. simpl.
    destruct (timestamp r) as [t|]; simpl; [|by split].
    destruct (Z.eqb_spec t 0) as [->|Hne]; [by split|].
    destruct (Z.ltb_spec 120000 (now - t)) as [Hold|Hfresh].
    + split; [done|]. intros _ s [= <-].
      apply Z.div_le_lower_bound; lia.
    + split; [|by repeat destruct (_ || _)].
      intros _. eexists. split; [done|].
      apply Z.div_le_upper_bound; lia.
  - by split.
Qed.

Lemma lastSeenAgo_bounds_witness :
  ∃ e, enrichedNodes
         (getWarehouseStatus sample_now toFixed1 sample_readings DEFAULT_THRESHOLDS)
         !! "n2"%string = Some e
       ∧ e_lastSeenAgo e = Some 200
       ∧ (e_isOnline e = false → ∀ s, e_lastSeenAgo e = Some s → 120 ≤ s).
Proof.
  pose proof (enrichedNodes_entry sample_now toFixed1 sample_readings
                DEFAULT_THRESHOLDS "n2"%string) as Hl.
  eexists. split; [exact Hl|]. split; [reflexivity|].
  exact (proj2 (lastSeenAgo_bounds sample_now toFixed1 sample_readings
                  DEFAULT_THRESHOLDS "n2"%string _ Hl)).
Defined.

(** ** Counters of the snapshot *)

Lemma status_partition (status_of : string → NodeStatus) (nodeIds : list string) :
  (length (filter (λ nodeId, status_of nodeId = Optimal) nodeIds)
   + length (filter (λ nodeId, status_of nodeId = AtRisk) nodeIds)
   + length (filter (λ nodeId, status_of nodeId = Critical) nodeIds)
   + length (filter (λ nodeId, status_of nodeId = Offline) nodeIds)
   = length nodeIds)%nat
  ∧ (length (filter (λ nodeId, status_of nodeId ≠ Offline) nodeIds)
     + length (filter (λ nodeId, status_of nodeId = Offline) nodeIds)
     = length nodeIds)%nat.
Proof.
  induction nodeIds as [|nodeId nodeIds [IH1 IH2]]; [done|].
  rewrite !filter_cons.
  destruct (status_of nodeId); repeat case_decide; simpl; try done; lia.
Qed.

Lemma snapshot_counts_by_status (now : Z) (round1 : float → float)
    (readings : Readings) (thresholds : Thresholds) :
  let snapshot := getWarehouseStatus now round1 readings thresholds in
  let count := units_with now readings thresholds in
  offlineNodes snapshot = count Offline
  ∧ atRiskNodesCount snapshot = count AtRisk
  ∧ criticalNodesCount snapshot = count Critical
  ∧ onlineNodes snapshot = count Optimal + count AtRisk + count Critical
  ∧ totalNodes snapshot = count Optimal + count AtRisk + count Critical + count Offline.
Proof.
  intros snapshot count. subst snapshot count. unfold units_with.
  rewrite criticalNodes_count, atRiskNodes_count, onlineNodes_count.
  rewrite getWarehouseStatus_loop. simpl. unfold run_loop.
  rewrite loop_onlineCount. simpl.
  fold (online_units now readings thresholds).
  destruct (status_partition (unit_status now readings thresholds)
              (Object_keys readings)) as [H4 H2].
  fold (online_among now readings thresholds (Object_keys readings)) in H2.
  fold (online_units now readings thresholds) in H2.
  repeat split; lia.
Qed.

(** X3: [offlineNodes], computed by subtraction, is the number of units
    classified Offline, and the units split into Optimal, At Risk, Critical
    and Offline ones: the four numbers add up to [totalNodes], none of them
    negative. *)
Theorem snapshot_status_partition (now : Z) (round1 : float → float)
    (readings : Readings) (thresholds : Thresholds) :
  let snapshot := getWarehouseStatus now round1 readings thresholds in
  let count := units_with now readings thresholds in
  offlineNodes snapshot = count Offline
  ∧ atRiskNodesCount snapshot = count AtRisk
  ∧ criticalNodesCount snapshot = count Critical
  ∧ onlineNodes snapshot = count Optimal + count AtRisk + count Critical
  ∧ totalNodes snapshot = count Optimal + count AtRisk + count Critical + count Offline
  ∧ 0 ≤ offlineNodes snapshot ∧ 0 ≤ onlineNodes snapshot.
Proof.
  intros snapshot count.
  destruct (snapshot_counts_by_status now round1 readings thresholds)
    as (Hoff & Hrisk & Hcrit & Hon & Htotal).
  fold snapshot in Hoff, Hrisk, Hcrit, Hon, Htotal.
  fold count in Hoff, Hrisk, Hcrit, Hon, Htotal.
  unfold count, units_with in *. repeat split; lia.
Qed.

(** X4: for the snapshot of any fleet the health bar reads a count of zero
    for its Optimal segment, the snapshot holding nothing under that
    segment's key; the three other segments carry the At Risk, Critical and
    Offline counts, so that the segments add up to the number of units less
    the Optimal ones.  The bar's divisor is at least one. *)
Theorem healthBar_counts_snapshot (now : Z) (round1 : float → float)
    (readings : Readings) (thresholds : Thresholds) :
  let snapshot := getWarehouseStatus now round1 readings thresholds in
  let count := units_with now readings thresholds in
  healthBar_counts (Some snapshot) = [0; count AtRisk; count Critical; count Offline]
  ∧ foldr Z.add 0 (healthBar_counts (Some snapshot))
    = totalNodes snapshot - count Optimal
  ∧ 1 ≤ healthBar_total (Some snapshot)
  ∧ healthBar_counts None = [0; 0; 0; 0].
Proof.
  intros snapshot count.
  destruct (snapshot_counts_by_status now round1 readings thresholds)
    as (Hoff & Hrisk & Hcrit & _ & Htotal).
  fold snapshot in Hoff, Hrisk, Hcrit, Htotal. fold count in Hoff, Hrisk, Hcrit, Htotal.
  assert (healthBar_counts (Some snapshot)
          = [0; count AtRisk; count Critical; count Offline]) as Hcounts.
  { unfold healthBar_counts, SEGMENTS. simpl. unfold snapshot_counter. simpl.
    by rewrite Hoff, Hrisk, Hcrit. }
  split; [exact Hcounts|]. split.
  - rewrite Hcounts, Htotal. simpl. lia.
  - split; [unfold healthBar_total; lia | reflexivity].
Qed.

(** ** Staleness as time passes *)

Lemma isNodeStale_mono (now now' : Z) (ts : option Z) :
  now ≤ now' → isNodeStale now ts = true → isNodeStale now' ts = true.
Proof.
  unfold isNodeStale. intros Hle. destruct ts as [t|]; [|done].
  destruct (t =? 0); [done|]. rewrite !Z.ltb_lt. lia.
Qed.

Lemma getNodeStatus_offline_iff (now : Z) (node : option Reading)
    (thresholds : Thresholds) :
  getNodeStatus now node thresholds = Offline ↔
  node = None ∨ ∃ r, node = Some r ∧ isNodeStale now (timestamp r) = true.
Proof.
  unfold getNodeStatus. destruct node as [r|]; [|by split; [left|]].
  destruct (isNodeStale now (timestamp r)) eqn:E.
  - split; [|done]. intros _. right. by exists r.
  - split.
    + cbv zeta. by repeat destruct (_ || _).
    + intros [?|(r' & [= <-] & Hs)]; [done|]. congruence.
Qed.

(** X5: a unit that is Offline stays Offline at every later instant as long
    as its reading is the same, whatever the thresholds become; hence, for
    the same readings, a later snapshot never counts more units online than
    an earlier one. *)
Theorem offline_until_new_reading (now now' : Z) (round1 : float → float)
    (readings : Readings) (thresholds thresholds' : Thresholds) :
  now ≤ now' →
  (∀ node, getNodeStatus now node thresholds = Offline →
           getNodeStatus now' node thresholds' = Offline)
  ∧ onlineNodes (getWarehouseStatus now' round1 readings thresholds')
    ≤ onlineNodes (getWarehouseStatus now round1 readings thresholds).
Proof.
  intros Hle.
  assert (∀ node, getNodeStatus now node thresholds = Offline →
                  getNodeStatus now' node thresholds' = Offline) as Hoff.
  { intros node. rewrite !getNodeStatus_offline_iff.
    intros [?|(r & ? & Hs)]; [by left|]. right. exists r. split; [done|].
    by apply (isNodeStale_mono now now'). }
  split; [exact Hoff|].
  rewrite !onlineNodes_count. apply inj_le.
  unfold online_units, online_among.
  induction (Object_keys readings) as [|nodeId nodeIds IH]; [done|].
  rewrite !filter_cons.
  destruct (decide (unit_status now' readings thresholds' nodeId ≠ Offline)) as [H'|H'];
    destruct (decide (unit_status now readings thresholds nodeId ≠ Offline)) as [H|H];
    simpl; try lia.
  exfalso. apply H'. apply Hoff. by apply dec_stable in H.
Qed.

Lemma offline_until_new_reading_witness :
  onlineNodes (getWarehouseStatus (sample_now + 120000) toFixed1 sample_readings
                 DEFAULT_THRESHOLDS)
  ≤ onlineNodes (getWarehouseStatus sample_now toFixed1 sample_readings
                   DEFAULT_THRESHOLDS).
Proof.
  apply (offline_until_new_reading sample_now (sample_now + 120000) toFixed1
           sample_readings DEFAULT_THRESHOLDS DEFAULT_THRESHOLDS).
  vm_compute. discriminate.
Defined.

(** ** The subscription registry *)

Lemma Map_set_new {V : Type} (key : string) (v : V) (m : list (string * V)) :
  (key, v) ∈ Map_set key v m.
Proof.
  induction m as [|[k v'] m IH]; simpl; [left|].
  destruct (decide (k = key)); [left | by right].
Qed.


Lemma Map_set_elem {V : Type} (key : string) (v : V) (m : list (string * V))
    (entry : string * V) :
  entry ∈ Map_set key v m → entry = (key, v) ∨ entry ∈ m.
Proof.
  induction m as [|[k v'] m IH]; simpl.
  - intros ?%list_elem_of_singleton. by left.
  - destruct (decide (k = key)) as [->|Hk]; rewrite !elem_of_cons.
    + intros [->|?]; [by left | right; by right].
    + intros [->|H]; [right; by left|].
      destruct (IH H); [by left | right; by right].
Qed.

Lemma Map_set_overwrite {V : Type} (key : string) (v1 v2 : V)
    (m : list (string * V)) :
  Map_set key v2 (Map_set key v1 m) = Map_set key v2 m.
Proof.
  induction m as [|[k v'] m IH]; simpl.
  - by rewrite decide_True.
  - destruct (decide (k = key)) as [->|Hk]; simpl.
    + by rewrite decide_True.
    + rewrite decide_False by done. by rewrite IH.
Qed.

Lemma unsubscribeAll_loop (entries : list (string * Unsubscribe)) (st : ServiceState) :
  let st' := foldl unsubscribeAll_body st entries in
  db_calls st' = db_calls st ++ ((λ entry, off_call entry.2) <$> entries)
  ∧ next_handler st' = next_handler st
  ∧ activeListeners st' =
    filter (λ entry, entry.1 ∉ entries.*1) (activeListeners st).
Proof.
  revert st. induction entries as [|e entries IH]; intros st; simpl.
  - rewrite app_nil_r. repeat split.
    induction (activeListeners st) as [|x m IHm]; [done|].
    rewrite filter_cons_True by apply not_elem_of_nil. by rewrite <- IHm.
  - destruct (IH (unsubscribeAll_body st e)) as (Hc & Hn & Ha).
    rewrite Hc, Hn, Ha. simpl. rewrite <- app_assoc. repeat split.
    unfold Map_delete.
    induction (activeListeners st) as [|x m IHm]; [done|].
    rewrite !filter_cons.
    destruct (decide (x.1 ≠ e.1)) as [Hx|Hx].
    + rewrite filter_cons.
      destruct (decide (x.1 ∉ entries.*1)) as [Hin|Hin].
      * rewrite decide_True; [by rewrite IHm|].
        rewrite not_elem_of_cons. done.
      * rewrite decide_False; [done|].
        rewrite not_elem_of_cons. tauto.
    + apply dec_stable in Hx. rewrite decide_False; [done|].
      rewrite not_elem_of_cons. tauto.
Qed.

Lemma unsubscribeAll_calls (st : ServiceState) :
  activeListeners (unsubscribeAll st) = []
  ∧ db_calls (unsubscribeAll st) =
    db_calls st ++ ((λ entry, off_call entry.2) <$> activeListeners st)
  ∧ next_handler (unsubscribeAll st) = next_handler st.
Proof.
  destruct (unsubscribeAll_loop (activeListeners st) st) as (Hc & Hn & Ha).
  fold (unsubscribeAll st) in Hc, Hn, Ha.
  split; [|by split]. rewrite Ha. clear. generalize (activeListeners st). intros m.
  assert (∀ l : list (string * Unsubscribe),
            (∀ x, x ∈ l → x.1 ∈ m.*1) → filter (λ entry, entry.1 ∉ m.*1) l = [])
    as Hall.
  { induction l as [|x l IH]; intros Hl; [done|].
    rewrite filter_cons_False.
    - apply IH. intros y Hy. apply Hl. by right.
    - intros Hx. apply Hx, Hl. left. }
  apply Hall. intros x Hx. apply list_elem_of_fmap. by exists x.
Qed.

(** X6: [unsubscribeAll] invokes the closure of every entry of the
    registry once, in the order of registration, and leaves the registry
    empty; called again it does nothing at all. *)
Theorem unsubscribeAll_releases_all (st : ServiceState) :
  let st' := unsubscribeAll st in
  activeListeners st' = []
  ∧ db_calls st' = db_calls st ++ ((λ entry, off_call entry.2) <$> activeListeners st)
  ∧ next_handler st' = next_handler st
  ∧ unsubscribeAll st' = st'.
Proof.
  intros st'. destruct (unsubscribeAll_calls st) as (Hnil & Hc & Hn).
  fold st' in Hnil, Hc, Hn.
  split; [exact Hnil|]. split; [exact Hc|]. split; [exact Hn|].
  unfold unsubscribeAll at 1. by rewrite Hnil.
Qed.

Lemma subscribe_handlers_known (key path : string) (st : ServiceState) :
  handlers_known st → handlers_known (subscribe key path st).2.
Proof.
  intros [Hc Hr]. split; simpl.
  - apply Forall_app. split.
    + eapply Forall_impl; [exact Hc|]. intros [p h|p h]; lia.
    + constructor; [simpl; lia | constructor].
  - apply Forall_forall. intros e He.
    apply Map_set_elem in He as [->|He]; simpl; [lia|].
    rewrite Forall_forall in Hr. specialize (Hr e He). lia.
Qed.

(** X7: subscribing a second time under a key replaces the closure kept
    for that key.  The listener of the first subscription has been attached
    but [unsubscribeAll] then makes no [off] call for it: only the second
    one is released, although the registry ends up empty. *)
Theorem resubscribe_orphans_listener (key path path' : string) (st : ServiceState) :
  handlers_known st →
  let first := subscribe key path st in
  let second := subscribe key path' (first.2) in
  let st' := unsubscribeAll (second.2) in
  OnValue path (u_handler (first.1)) ∈ db_calls st'
  ∧ (off_call (first.1) ∉ db_calls st')
  ∧ off_call (second.1) ∈ db_calls st'
  ∧ activeListeners st' = [].
Proof.
  intros [Hc Hr] first second st'.
  destruct (unsubscribeAll_calls (second.2)) as (Hnil & Hcalls & _).
  fold st' in Hnil, Hcalls. rewrite Hcalls. simpl.
  rewrite Map_set_overwrite.
  split; [|split; [|split; [|exact Hnil]]].
  - rewrite !elem_of_app. left. left. right. left.
  - rewrite !elem_of_app, !list_elem_of_singleton, list_elem_of_fmap.
    unfold off_call. simpl. intros [[[Hold|?]|?]|(e & He & Hin)]; try done.
    + rewrite Forall_forall in Hc. specialize (Hc _ Hold). simpl in Hc. lia.
    + apply Map_set_elem in Hin as [->|Hin].
      * simpl in He. injection He. lia.
      * rewrite Forall_forall in Hr. specialize (Hr e Hin).
        injection He as _ He. lia.
  - rewrite !elem_of_app, list_elem_of_fmap. right.
    exists (key, second.1). split; [done|]. apply Map_set_new.
Qed.

Lemma resubscribe_orphans_listener_witness :
  let first := subscribeToReadings new_service in
  let second := subscribeToReadings (first.2) in
  db_calls (unsubscribeAll (second.2)) =
    [OnValue READINGS_PATH 0; OnValue READINGS_PATH 1; Off READINGS_PATH 1]
  ∧ off_call (first.1) ∉ db_calls (unsubscribeAll (second.2)).
Proof.
  split; [reflexivity|].
  apply (resubscribe_orphans_listener "readings"%string READINGS_PATH READINGS_PATH
           new_service).
  split; constructor.
Defined.

Lemma Map_set_count (key : string) (u : Unsubscribe)
    (m : list (string * Unsubscribe)) :
  Forall (λ entry, entry.2 ≠ u) m →
  length (filter (λ entry : string * Unsubscribe, entry.2 = u) (Map_set key u m))
  = 1%nat.
Proof.
  intros Hm. induction Hm as [|[k u'] m Hk Hm IH]; simpl.
  - by rewrite filter_cons_True.
  - destruct (decide (k = key)) as [->|Hne].
    + rewrite filter_cons_True by done. simpl. f_equal.
      clear IH. induction Hm as [|x m Hx Hm IH]; [done|].
      by rewrite filter_cons_False.
    + rewrite filter_cons_False by done. exact IH.
Qed.

Lemma off_call_count (u : Unsubscribe) (m : list (string * Unsubscribe)) :
  length (filter (λ c, c = off_call u) ((λ entry, off_call entry.2) <$> m)) =
  length (filter (λ entry : string * Unsubscribe, entry.2 = u) m).
Proof.
  induction m as [|[k u'] m IH]; [done|].
  rewrite fmap_cons, !filter_cons. simpl.
  destruct (decide (off_call u' = off_call u)) as [Heq|Hne].
  - rewrite decide_True; [simpl; by rewrite IH|].
    destruct u, u'. unfold off_call in Heq. simpl in Heq. by injection Heq as -> ->.
  - rewrite decide_False; [exact IH|]. by intros ->.
Qed.

(** X8: the closure a subscription returns makes its [off] call and
    nothing else: the entry stays in the registry, and a later
    [unsubscribeAll] makes the same call a second time. *)
Theorem unsubscribe_keeps_registration (key path : string) (st : ServiceState) :
  handlers_known st →
  let sub := subscribe key path st in
  let st1 := call_unsubscribe (sub.1) (sub.2) in
  let st2 := unsubscribeAll st1 in
  activeListeners st1 = activeListeners (sub.2)
  ∧ (key, sub.1) ∈ activeListeners st1
  ∧ length (filter (λ c, c = off_call (sub.1)) (db_calls st1)) = 1%nat
  ∧ length (filter (λ c, c = off_call (sub.1)) (db_calls st2)) = 2%nat.
Proof.
  intros [Hc Hr] sub st1 st2.
  assert (length (filter (λ c, c = off_call (sub.1)) (db_calls st1)) = 1%nat) as H1.
  { change (db_calls st1)
      with ((db_calls st ++ [OnValue path (next_handler st)]) ++ [off_call (sub.1)]).
    rewrite !filter_app, !length_app.
    assert (filter (λ c, c = off_call (sub.1)) (db_calls st) = []) as ->.
    { clear -Hc. induction Hc as [|c l Hc Hl IH]; [done|].
      rewrite filter_cons_False; [done|]. intros ->. simpl in Hc. lia. }
    rewrite filter_cons_False by done.
    by rewrite filter_cons_True. }
  split; [done|]. split; [apply Map_set_new|]. split; [exact H1|].
  destruct (unsubscribeAll_calls st1) as (_ & Hcalls & _).
  fold st2 in Hcalls. rewrite Hcalls, filter_app, length_app, H1.
  f_equal.
  change (activeListeners st1) with (Map_set key (sub.1) (activeListeners st)).
  rewrite off_call_count.
  apply Map_set_count.
  eapply Forall_impl; [exact Hr|]. intros [k u] He Heq. simpl in He, Heq.
  subst u. simpl in He. lia.
Qed.

Lemma unsubscribe_keeps_registration_witness :
  let sub := subscribeToAlerts new_service in
  db_calls (unsubscribeAll (call_unsubscribe (sub.1) (sub.2))) =
    [OnValue ALERTS_PATH 0; Off ALERTS_PATH 0; Off ALERTS_PATH 0]
  ∧ length (filter (λ c, c = off_call (sub.1))
              (db_calls (unsubscribeAll (call_unsubscribe (sub.1) (sub.2))))) = 2%nat.
Proof.
  split; [reflexivity|].
  apply (unsubscribe_keeps_registration "alerts"%string ALERTS_PATH new_service).
  split; constructor.
Defined.


(** ** The hook [useLiveWarehouse] *)

(** X10: however the updates of the three subscriptions and the
    acknowledgements interleave, the snapshot the hook holds is the one
    computed from the readings and the thresholds it holds now, as of the
    instant of the last readings or thresholds update (of mounting, if
    there has been none): alert-log updates and acknowledgements do not
    touch it, and the passing of time alone does not refresh it.  The
    recorded previous status is the overall status of that snapshot. *)
Theorem live_snapshot_current (round1 : float → float) (mounted : Z)
    (evs : list LiveEvent) :
  let st := live_run round1 mounted evs in
  let snapshot :=
    getWarehouseStatus (last_recompute mounted evs) round1
      (live_readings st) (live_thresholds st) in
  warehouseStatus (live_alarm st) = Some snapshot
  ∧ prevOverall (live_alarm st) = Some (overallStatus snapshot).
Proof.
  unfold live_run, last_recompute.
  induction evs as [|ev evs IH] using rev_ind; [done|].
  rewrite !foldl_app. simpl. destruct IH as [IH1 IH2].
  destruct ev; simpl; try done.
Qed.

(** X11: the connection flag is set by the first readings update and is
    never cleared afterwards, whatever follows; [lastSync] is the instant
    of the latest readings update. *)
Theorem live_connection_latched (round1 : float → float) (mounted : Z)
    (evs : list LiveEvent) :
  let st := live_run round1 mounted evs in
  (isConnected st = true ↔ readings_instants evs ≠ [])
  ∧ lastSync st = last (readings_instants evs)
  ∧ (∀ more, isConnected st = true →
             isConnected (foldl (live_step round1) st more) = true).
Proof.
  unfold live_run, readings_instants.
  assert (∀ st more, isConnected st = true →
            isConnected (foldl (live_step round1) st more) = true) as Hkeep.
  { intros st more. revert st.
    induction more as [|ev more IH]; intros st Hst; [done|].
    simpl. apply IH. by destruct ev. }
  split; [|split; [|apply Hkeep]].
  - induction evs as [|ev evs IH] using rev_ind; [done|].
    rewrite foldl_app, omap_app. simpl.
    destruct ev; simpl; rewrite ?app_nil_r; try exact IH.
    split; [|done]. intros _ Hnil. by apply app_eq_nil in Hnil as [_ ?].
  - induction evs as [|ev evs IH] using rev_ind; [done|].
    rewrite foldl_app, omap_app. simpl.
    destruct ev; simpl; rewrite ?app_nil_r; try exact IH.
    by rewrite last_snoc.
Qed.

(** ** The alarm over a whole run *)

Lemma alarm_run_no_dismissal (snapshots : list WarehouseStatus) (st : AlarmState) :
  (prevOverall st = Some FleetCritical → amberAlertActive st = true) →
  (amberAlertActive (hook_run st (Recomputed <$> snapshots)) = true ↔
   amberAlertActive st = true
   ∨ ∃ s, s ∈ snapshots ∧ overallStatus s = FleetCritical).
Proof.
  unfold hook_run. revert st.
  induction snapshots as [|a rest IH]; intros st Hinv; simpl.
  - split; [by left|]. intros [?|(s & Hs & _)]; [done|]. by apply elem_of_nil in Hs.
  - rewrite IH.
    + simpl. unfold enters_critical.
      destruct (decide (overallStatus a = FleetCritical)) as [Hc|Hc].
      * rewrite (bool_decide_true _ Hc). simpl.
        destruct (decide (prevOverall st = Some FleetCritical)) as [Hp|Hp].
        -- rewrite (Hinv Hp). rewrite bool_decide_false by (intros H; by apply H).
           split; intros _; by left.
        -- rewrite (bool_decide_true _ Hp).
           split; intros _; [right; exists a; split; [left|done] | by left].
      * rewrite (bool_decide_false _ Hc). simpl.
        split; (intros [?|(s & Hs & Hcs)]; [by left|right]).
        -- exists s. split; [by right|done].
        -- exists s. split; [|done]. apply elem_of_cons in Hs as [->|?]; done.
    + simpl. intros [= Hc]. unfold enters_critical.
      rewrite (bool_decide_true _ Hc). simpl.
      destruct (decide (prevOverall st = Some FleetCritical)) as [Hp|Hp].
      * rewrite (Hinv Hp). by destruct (bool_decide _).
      * by rewrite (bool_decide_true _ Hp).
Qed.

(** X12: as long as the alert is never acknowledged, it is shown exactly
    when some snapshot computed so far was Critical: once raised it stays,
    also after the fleet has recovered. *)
Theorem alarm_active_iff_ever_critical (snapshots : list WarehouseStatus) :
  amberAlertActive (hook_run alarm_init (Recomputed <$> snapshots)) = true ↔
  ∃ s, s ∈ snapshots ∧ overallStatus s = FleetCritical.
Proof.
  rewrite alarm_run_no_dismissal by done. simpl.
  split; [by intros [?|?] | by right].
Qed.

(** X13: through every sequence of recomputations and acknowledgements the
    recorded previous status is the overall status of the snapshot the hook
    holds, and an acknowledgement changes neither. *)
Theorem prevOverall_mirrors_snapshot (evs : list HookEvent) :
  let st := hook_run alarm_init evs in
  prevOverall st = overallStatus <$> warehouseStatus st
  ∧ warehouseStatus (hook_step st Dismissed) = warehouseStatus st
  ∧ warehouseStatus st =
      last (omap (λ ev, match ev with
                        | Recomputed s => Some s
                        | Dismissed => None
                        end) evs).
Proof.
  unfold hook_run. split; [|split; [done|]].
  - induction evs as [|ev evs IH] using rev_ind; [done|].
    rewrite foldl_app. simpl. by destruct ev.
  - induction evs as [|ev evs IH] using rev_ind; [done|].
    rewrite foldl_app, omap_app. simpl.
    destruct ev; simpl; [by rewrite last_snoc | by rewrite app_nil_r].
Qed.

(** ** Producers and consumers of the alert log *)

Lemma StronglySorted_head_max {A : Type} (R : A → A → Prop) (l : list A) (x : A) :
  StronglySorted R l → x ∈ l →
  ∃ h t, l = h :: t ∧ (x = h ∨ R h x).
Proof.
  intros Hs Hx. destruct Hs as [|h t Hs Hall]; [by apply elem_of_nil in Hx|].
  exists h, t. split; [done|].
  apply elem_of_cons in Hx as [->|Hx]; [by left|right].
  rewrite Forall_forall in Hall. by apply Hall.
Qed.

Lemma projectAlerts_newest_first_sorted (raw : list (string * RawAlert)) :
  subscribeToAlerts_handler (Some raw) ≡ₚ alert_of_entry <$> raw
  ∧ StronglySorted
      (λ a b, default 0 (alert_timestamp b) ≤ default 0 (alert_timestamp a))
      (subscribeToAlerts_handler (Some raw)).
Proof.
  split; [apply Array_sort_Permutation|].
  eapply StronglySorted_weaken; [|apply (Array_sort_sorted newest_first)].
  - intros a b. apply newest_first_ahead.
  - intros a b. unfold newest_first. lia.
  - intros a b c. unfold newest_first. lia.
Qed.

(** X14: an alert pushed with a server time later than the timestamp of
    every record already in the log (a missing one counting as zero) heads
    the projected list the subscribers receive next, wherever the store
    enumerates its key; the server time replaces any timestamp the payload
    carried. *)
Theorem pushed_alert_comes_first (alertPayload : RawAlert) (serverTime : Z)
    (key : string) (raw raw' : list (string * RawAlert)) :
  raw' ≡ₚ (key, pushAlert_record alertPayload serverTime) :: raw →
  Forall (λ entry, default 0 (raw_timestamp entry.2) < serverTime) raw →
  head (subscribeToAlerts_handler (Some raw')) =
    Some (alert_of_entry (key, pushAlert_record alertPayload serverTime))
  ∧ alert_timestamp (alert_of_entry (key, pushAlert_record alertPayload serverTime))
    = Some serverTime.
Proof.
  intros Hperm Hold. split; [|done].
  destruct (projectAlerts_newest_first_sorted raw') as (Hp & Hs).
  set (new := alert_of_entry (key, pushAlert_record alertPayload serverTime)).
  assert (new ∈ subscribeToAlerts_handler (Some raw')) as Hin.
  { rewrite Hp, Hperm, fmap_cons. left. }
  destruct (StronglySorted_head_max _ _ _ Hs Hin) as (h & t & Hl & Hh).
  rewrite Hl. simpl. f_equal. destruct Hh as [->|Hle]; [done|].
  assert (h ∈ alert_of_entry <$> raw') as Hh.
  { rewrite <- Hp, Hl. left. }
  rewrite Hperm, fmap_cons in Hh. apply elem_of_cons in Hh as [->|Hh]; [done|].
  apply list_elem_of_fmap in Hh as ([k r] & -> & Hr).
  rewrite Forall_forall in Hold. specialize (Hold _ Hr).
  simpl in Hold, Hle. lia.
Qed.

Lemma pushed_alert_comes_first_witness :
  head (subscribeToAlerts_handler
          (Some (sample_log ++
                 [("-Na3"%string, pushAlert_record sample_payload sample_now)]))) =
  Some (alert_of_entry ("-Na3"%string, pushAlert_record sample_payload sample_now)).
Proof.
  apply (pushed_alert_comes_first sample_payload sample_now "-Na3"%string sample_log).
  - symmetry. apply Permutation_cons_append.
  - repeat constructor.
Defined.

Lemma StronglySorted_filter {A : Type} (R : A → A → Prop) (P : A → Prop)
    `{!∀ x, Decision (P x)} (l : list A) :
  StronglySorted R l → StronglySorted R (filter P l).
Proof.
  induction 1 as [|x l Hs IH Hall]; [constructor|].
  rewrite filter_cons. destruct (decide (P x)); [|done].
  constructor; [done|]. rewrite Forall_forall in Hall.
  apply Forall_forall. intros y [_ Hy]%list_elem_of_filter. by apply Hall.
Qed.

(** X15: the filtered list of the alert screens and of the export holds,
    under the filter of a kind, exactly the projected alerts of that kind,
    and under ['All'] all of them; either way it is still in descending
    order of timestamp and no longer than the projected list. *)
Theorem filter_alerts_newest_first (filter : string)
    (val : option (list (string * RawAlert))) :
  let alerts := subscribeToAlerts_handler val in
  let filtered := filter_alerts filter alerts in
  StronglySorted
    (λ a b, default 0 (alert_timestamp b) ≤ default 0 (alert_timestamp a)) filtered
  ∧ (∀ a, a ∈ filtered ↔
          a ∈ alerts ∧ (filter = "All"%string ∨ alert_type a = Some filter))
  ∧ (length filtered ≤ length alerts)%nat
  ∧ filter_alerts "All"%string alerts = alerts.
Proof.
  intros alerts filtered.
  assert (StronglySorted
            (λ a b, default 0 (alert_timestamp b) ≤ default 0 (alert_timestamp a))
            alerts) as Hs.
  { subst alerts. destruct val as [raw|].
    - apply projectAlerts_newest_first_sorted.
    - constructor. }
  subst filtered. unfold filter_alerts.
  destruct (decide (filter = "All"%string)) as [->|Hne].
  - repeat split; try done.
    + by left.
    + by intros [? _].
  - split; [by apply StronglySorted_filter|]. split; [|split; [apply length_filter|done]].
    intros a. rewrite list_elem_of_filter. split.
    + intros [? ?]. split; [done | by right].
    + intros [? [?|?]]; done.
Qed.

Lemma alert_counts_loop (alerts : list Alert) (c : AlertCounts) :
  let c' := foldl count_alert c alerts in
  count_humidity c' =
    count_humidity c + Z.of_nat (length (filter_alerts "humidity"%string alerts))
  ∧ count_temperature c' =
    count_temperature c + Z.of_nat (length (filter_alerts "temperature"%string alerts))
  ∧ count_battery c' =
    count_battery c + Z.of_nat (length (filter_alerts "battery"%string alerts)).
Proof.
  unfold filter_alerts. simpl.
  revert c. induction alerts as [|a alerts IH]; intros c; simpl.
  - repeat split; lia.
  - destruct (IH (count_alert c a)) as (H1 & H2 & H3). rewrite H1, H2, H3.
    rewrite !filter_cons. unfold count_alert.
    destruct (alert_type a) as [t|].
    + destruct (decide (t = "humidity"%string)) as [->|Hh].
      { simpl. repeat split; lia. }
      destruct (decide (t = "temperature"%string)) as [->|Ht].
      { simpl. repeat split; lia. }
      destruct (decide (t = "battery"%string)) as [->|Hb].
      { simpl. repeat split; lia. }
      rewrite !decide_False by congruence. repeat split; lia.
    + rewrite !decide_False by done. repeat split; lia.
Qed.

(** X16: each summary chip of the alert screen shows the number of alerts
    the list holds under the filter of its kind; the three chips together
    never exceed the number of alerts, and fall short of it exactly by the
    alerts whose kind is none of the three. *)
Theorem alert_counts_match_filters (alerts : list Alert) :
  let c := alert_counts alerts in
  let known (a : Alert) :=
    alert_type a = Some "humidity"%string
    ∨ alert_type a = Some "temperature"%string
    ∨ alert_type a = Some "battery"%string in
  count_humidity c = Z.of_nat (length (filter_alerts "humidity"%string alerts))
  ∧ count_temperature c = Z.of_nat (length (filter_alerts "temperature"%string alerts))
  ∧ count_battery c = Z.of_nat (length (filter_alerts "battery"%string alerts))
  ∧ count_humidity c + count_temperature c + count_battery c
    = Z.of_nat (length (filter known alerts))
  ∧ count_humidity c + count_temperature c + count_battery c
    ≤ Z.of_nat (length alerts).
Proof.
  intros c known.
  destruct (alert_counts_loop alerts
              {| count_humidity := 0; count_temperature := 0; count_battery := 0 |})
    as (H1 & H2 & H3).
  fold (alert_counts alerts) in H1, H2, H3. fold c in H1, H2, H3. simpl in H1, H2, H3.
  assert (count_humidity c + count_temperature c + count_battery c
          = Z.of_nat (length (filter known alerts))) as Hsum.
  { rewrite H1, H2, H3. unfold filter_alerts. simpl. clear.
    induction alerts as [|a alerts IH]; [done|].
    rewrite !filter_cons. subst known. cbv beta.
    repeat case_decide; simpl; try lia; exfalso; intuition congruence. }
  split; [lia|]. split; [lia|]. split; [lia|]. split; [exact Hsum|].
  rewrite Hsum. apply inj_le, length_filter.
Qed.

(** X17: the mini-feed of the desktop dashboard shows the first eight
    alerts of the projected list, or all of them if there are fewer, and no
    alert left out of it is newer than one shown in it. *)
Theorem recentAlerts_are_newest (val : option (list (string * RawAlert))) :
  let alerts := subscribeToAlerts_handler val in
  let recent := recentAlerts alerts in
  length recent = Nat.min 8 (length alerts)
  ∧ alerts = recent ++ drop 8 alerts
  ∧ (∀ a b, a ∈ recent → b ∈ drop 8 alerts →
        default 0 (alert_timestamp b) ≤ default 0 (alert_timestamp a)).
Proof.
  intros alerts recent. subst recent. unfold recentAlerts.
  split; [apply length_take|]. split; [by rewrite take_drop|].
  assert (StronglySorted
            (λ a b, default 0 (alert_timestamp b) ≤ default 0 (alert_timestamp a))
            alerts) as Hs.
  { subst alerts. destruct val as [raw|].
    - apply projectAlerts_newest_first_sorted.
    - constructor. }
  intros a b Ha Hb.
  apply list_elem_of_lookup in Ha as [i Hi], Hb as [j Hj].
  rewrite lookup_drop in Hj.
  pose proof (lookup_lt_Some _ _ _ Hi) as Hlt. rewrite length_take in Hlt.
  apply lookup_take_Some in Hi as [Hi _].
  apply (StronglySorted_lookup _ alerts i (8 + j) a b Hs); [lia|done|done].
Qed.

(** ** Consumers of the enriched records *)

Section StableSort.

Context {A : Type} (key : A → Z).

Lemma sort_insert_filter_key (k : Z) (x : A) (l : list A) :
  filter (λ y, key y = k) (sort_insert (λ a b, key a - key b) x l) =
  filter (λ y, key y = k) (x :: l).
Proof.
  induction l as [|y l IH]; simpl; [done|].
  destruct (Z.leb_spec (key x - key y) 0) as [Hle|Hgt]; [done|].
  rewrite filter_cons, IH, !filter_cons.
  destruct (decide (key y = k)), (decide (key x = k)); try done. lia.
Qed.

Lemma Array_sort_filter_key (k : Z) (l : list A) :
  filter (λ y, key y = k) (Array_sort (λ a b, key a - key b) l) =
  filter (λ y, key y = k) l.
Proof.
  induction l as [|x l IH]; simpl; [done|].
  by rewrite sort_insert_filter_key, !filter_cons, IH.
Qed.

End StableSort.

Lemma severity_rank_inj (s s' : NodeStatus) :
  severity_rank s = severity_rank s' → s = s'.
Proof. by destruct s, s'. Qed.

(** X18: the dashboards list every enriched record once, the Critical ones
    first, then the At Risk, the Optimal and the Offline ones; records of
    the same status keep the order in which the snapshot enumerates them. *)
Theorem sortedNodes_by_severity (values : list EnrichedNode) :
  let sorted := sortedNodes values in
  sorted ≡ₚ values
  ∧ (∀ i j a b, (i < j)%nat → sorted !! i = Some a → sorted !! j = Some b →
        severity_rank (e_status a) ≤ severity_rank (e_status b))
  ∧ (∀ s, filter (λ n, e_status n = s) sorted = filter (λ n, e_status n = s) values)
  ∧ criticalNodes sorted = criticalNodes values.
Proof.
  intros sorted.
  assert (∀ s, filter (λ n, e_status n = s) sorted
               = filter (λ n, e_status n = s) values) as Hstable.
  { intros s.
    rewrite (list_filter_iff (λ n, e_status n = s)
               (λ n, severity_rank (e_status n) = severity_rank s) sorted),
            (list_filter_iff (λ n, e_status n = s)
               (λ n, severity_rank (e_status n) = severity_rank s) values).
    - apply (Array_sort_filter_key (λ n, severity_rank (e_status n))).
    - intros n. split; [by intros -> | apply severity_rank_inj].
    - intros n. split; [by intros -> | apply severity_rank_inj]. }
  split; [apply Array_sort_Permutation|]. split; [|split; [exact Hstable|apply Hstable]].
  intros i j a b Hij Hi Hj.
  assert (StronglySorted (λ a b, by_severity a b ≤ 0) sorted) as Hs.
  { apply Array_sort_sorted.
    - intros x y. unfold by_severity. lia.
    - intros x y z. unfold by_severity. lia. }
  pose proof (StronglySorted_lookup _ sorted i j a b Hs Hij Hi Hj) as H.
  unfold by_severity in H. lia.
Qed.

Lemma enrichedNodes_values (now : Z) (round1 : float → float)
    (readings : Readings) (thresholds : Thresholds) :
  NoDup (Object_keys readings) →
  (map_to_list (enrichedNodes (getWarehouseStatus now round1 readings thresholds))).*2
  ≡ₚ enriched_entry now readings thresholds <$> Object_keys readings.
Proof.
  intros Hnodup.
  set (m := enrichedNodes (getWarehouseStatus now round1 readings thresholds)).
  assert (map_to_list m ≡ₚ
          (λ nodeId, (nodeId, enriched_entry now readings thresholds nodeId))
            <$> Object_keys readings) as Hperm.
  { apply NoDup_Permutation.
    - apply NoDup_map_to_list.
    - apply NoDup_fmap_2_strong; [|done]. by intros x y _ _ [= ->].
    - intros [k e]. rewrite elem_of_map_to_list. unfold m.
      rewrite enrichedNodes_entry, list_elem_of_fmap. split.
      + destruct (decide _) as [Hin|]; [|done]. intros [= <-]. by exists k.
      + intros (k' & [= -> ->] & Hin). by rewrite decide_True. }
  rewrite Hperm, <- list_fmap_compose. done.
Qed.

(** X19: on any enumeration of the enriched records of a snapshot, the
    records the amber alert overlay lists are as many as the snapshot's
    [criticalNodesCount] says, and each of them is Critical and online. *)
Theorem criticalNodes_match_count (now : Z) (round1 : float → float)
    (readings : Readings) (thresholds : Thresholds) (values : list EnrichedNode) :
  let snapshot := getWarehouseStatus now round1 readings thresholds in
  NoDup (Object_keys readings) →
  values ≡ₚ (map_to_list (enrichedNodes snapshot)).*2 →
  Z.of_nat (length (criticalNodes values)) = criticalNodesCount snapshot
  ∧ Z.of_nat (length values) = totalNodes snapshot
  ∧ Forall (λ n, e_status n = Critical ∧ e_isOnline n = true) (criticalNodes values).
Proof.
  intros snapshot Hnodup Hvalues. unfold snapshot in Hvalues.
  rewrite (enrichedNodes_values now round1 readings thresholds Hnodup) in Hvalues.
  split; [|split].
  - subst snapshot. rewrite criticalNodes_count. f_equal.
    unfold criticalNodes. rewrite Hvalues. clear.
    induction (Object_keys readings) as [|nodeId nodeIds IH]; [done|].
    rewrite fmap_cons, !filter_cons. simpl. fold (unit_status now readings thresholds nodeId).
    destruct (decide (unit_status now readings thresholds nodeId = Critical)); simpl;
      by rewrite IH.
  - subst snapshot. rewrite getWarehouseStatus_loop. simpl.
    by rewrite Hvalues, length_fmap.
  - apply Forall_forall. intros n [Hc Hn]%list_elem_of_filter. split; [done|].
    rewrite Hvalues in Hn. apply list_elem_of_fmap in Hn as (nodeId & -> & _).
    simpl in *. by rewrite Hc.
Qed.

Lemma criticalNodes_match_count_witness :
  let snapshot :=
    getWarehouseStatus sample_now toFixed1 sample_readings DEFAULT_THRESHOLDS in
  Z.of_nat (length (criticalNodes (map_to_list (enrichedNodes snapshot)).*2))
  = criticalNodesCount snapshot.
Proof.
  apply (criticalNodes_match_count sample_now toFixed1 sample_readings
           DEFAULT_THRESHOLDS).
  - apply (bool_decide_unpack _). vm_compute. exact I.
  - done.
Defined.

(** ** The comparison function of the node card *)

(** X22: a unit that is Offline, with a timestamp and no value that is not
    a number, is Offline again in a snapshot computed a second or more later
    from the same readings; the comparison function of the card finds the
    two records equal, so the earlier rendering is kept, although the
    seconds since the unit was seen have increased. *)
Theorem memo_keeps_stale_age (now now' : Z) (readings : Readings)
    (thresholds thresholds' : Thresholds) (nodeId : string) (r : Reading) (t : Z) :
  reading_of readings nodeId = Some r →
  timestamp r = Some t → t ≠ 0 →
  Forall (λ v, strict_equal v v = true) [hum r; temp r; battery r] →
  unit_status now readings thresholds nodeId = Offline →
  now + 1000 ≤ now' →
  let p := enriched_entry now readings thresholds nodeId in
  let n := enriched_entry now' readings thresholds' nodeId in
  e_status n = Offline
  ∧ memo_areEqual p n = true
  ∧ ∃ s s', e_lastSeenAgo p = Some s ∧ e_lastSeenAgo n = Some s' ∧ s < s'.
Proof.
  intros Hr Ht Hne Hnum Hoff Hlater p n.
  assert (e_status n = Offline) as Hn.
  { subst n. simpl. unfold unit_status in Hoff.
    apply getNodeStatus_offline_iff in Hoff as [Hnone|(r' & Hr' & Hs)];
      [congruence|].
    apply getNodeStatus_offline_iff. right. exists r'. split; [done|].
    apply (isNodeStale_mono now now'); [lia|done]. }
  split; [exact Hn|]. split.
  - assert (e_status p = Offline) as Hp by exact Hoff.
    assert (e_isOnline n = false) as Hon.
    { change (e_isOnline n) with (is_online (e_status n)). by rewrite Hn. }
    assert (e_isOnline p = false) as Hop.
    { change (e_isOnline p) with (is_online (e_status p)). by rewrite Hp. }
    unfold memo_areEqual. rewrite Hn, Hp, Hon, Hop. subst p n. simpl.
    rewrite Hr. simpl.
    apply Forall_cons in Hnum as [Hh Hnum].
    apply Forall_cons in Hnum as [Htemp Hnum].
    apply Forall_cons in Hnum as [Hb _].
    by rewrite Hh, Htemp, Hb.
  - subst p n. simpl. unfold lastSeenAgo_of. rewrite Hr. simpl. rewrite Ht.
    apply Z.eqb_neq in Hne. rewrite Hne.
    eexists _, _. split; [done|]. split; [done|].
    assert ((now - t) / 1000 + 1 ≤ (now' - t) / 1000); [|lia].
    rewrite <- (Z.div_add (now - t) 1 1000) by lia.
    apply Z.div_le_mono; lia.
Qed.

Lemma memo_keeps_stale_age_witness :
  let p := enriched_entry sample_now sample_readings DEFAULT_THRESHOLDS "n2"%string in
  let n := enriched_entry (sample_now + 60000) sample_readings DEFAULT_THRESHOLDS
             "n2"%string in
  e_lastSeenAgo p = Some 200 ∧ e_lastSeenAgo n = Some 260
  ∧ memo_areEqual p n = true.
Proof.
  split; [reflexivity|]. split; [reflexivity|].
  refine (proj1 (proj2 (memo_keeps_stale_age sample_now (sample_now + 60000)
                          sample_readings DEFAULT_THRESHOLDS DEFAULT_THRESHOLDS
                          "n2"%string _ (sample_now - 200000) eq_refl eq_refl _ _ _ _))).
  - unfold sample_now. lia.
  - repeat constructor.
  - reflexivity.
  - lia.
Defined.

(** ** CSV export: failure and round trip *)

Lemma csv_row_None (Number_toString : float → string) (iso_format : Z → string)
    (a : Alert) :
  csv_row Number_toString iso_format a = None ↔
  ∃ t, alert_timestamp a = Some t ∧ t ≠ 0 ∧ MAX_TIME_VALUE < Z.abs t.
Proof.
  unfold csv_row, csv_cells, csv_timestamp, toISOString.
  destruct (alert_timestamp a) as [t|]; simpl.
  - destruct (Z.eqb_spec t 0) as [->|Hne]; simpl.
    + split; [done|]. by intros (t & [= <-] & ? & _).
    + case_bool_decide as Hrange; simpl.
      * split; [done|]. intros (t' & [= <-] & _ & ?). lia.
      * split; [|done]. intros _. exists t. repeat split; [done|lia].
  - split; [done|]. by intros (t & ? & _).
Qed.

(** X20: the export is produced unless some alert carries a non-zero
    timestamp beyond the range of valid time values (8.64e15 ms either
    side of the epoch), in which case it fails as a whole; when it is
    produced it is the header line followed by one row per alert. *)
Theorem alertsToCsv_fails_iff (Number_toString : float → string)
    (iso_format : Z → string) (alerts : list Alert) :
  (alertsToCsv Number_toString iso_format alerts = None ↔
   Exists (λ a, ∃ t, alert_timestamp a = Some t ∧ t ≠ 0
                     ∧ MAX_TIME_VALUE < Z.abs t) alerts)
  ∧ (∀ csv, alertsToCsv Number_toString iso_format alerts = Some csv →
       ∃ rows, Forall2 (λ a row, csv_row Number_toString iso_format a = Some row)
                 alerts rows
               ∧ csv = csv_header +:+ String.concat (str newline) rows)
  ∧ alertsToCsv Number_toString iso_format [] = Some csv_header.
Proof.
  split; [|split].
  - unfold alertsToCsv.
    destruct (mapM (csv_row Number_toString iso_format) alerts) as [rows|] eqn:E;
      simpl.
    + split; [done|]. intros Hex.
      assert (mapM (csv_row Number_toString iso_format) alerts = None) as Hn.
      { apply mapM_None. eapply Exists_impl; [exact Hex|].
        intros a. apply csv_row_None. }
      congruence.
    + split; [|done]. intros _. apply mapM_None in E.
      eapply Exists_impl; [exact E|]. intros a. apply csv_row_None.
  - intros csv H. unfold alertsToCsv in H.
    destruct (mapM (csv_row Number_toString iso_format) alerts) as [rows|] eqn:E;
      [|done].
    simpl in H. injection H as <-. exists rows. split; [|done].
    by apply mapM_Some.
  - unfold alertsToCsv. simpl. by rewrite append_empty_r.
Qed.

Lemma csv_row_roundtrip_witness :
  let Number_toString :=
    λ x : float, if PrimFloat.eqb x 71 then "71"%string else "60"%string in
  let iso_format := λ _ : Z, "2024-02-27T12:00:00.000Z"%string in
  ∃ row, csv_row Number_toString iso_format plain_alert = Some row
         ∧ csv_read_row Plain EmptyString row =
           [ "-Nq2"%string; "n1"%string; "humidity"%string; "71"%string;
             "60"%string; "2024-02-27T12:00:00.000Z"%string;
             "Humidity, again"%string ].
Proof.
  intros Number_toString iso_format. eexists. split; [reflexivity|].
  destruct (csv_row_roundtrip Number_toString iso_format plain_alert _ eq_refl)
    as (ts & Hts & Hread).
  injection Hts as <-. apply Hread. repeat constructor.
Defined.
